(** * Statistics and graph compression of rally/task/processing/utils.py

    A shallow embedding of [mean], [median], [percentile],
    [get_atomic_actions_data], [compress] and the [GraphZipper] class, and
    the properties their specification states about them.

    Numbers.  Python [int]s are [Z].  Python [float]s are modelled by exact
    rationals [Q]: every arithmetic operation is the exact one, rounding to
    binary64 is not modelled.  Integer-valued results of [math.floor],
    [math.ceil] and [int(...)] are [Z].

    In [compress] and [GraphZipper.add_point] a comparison of accumulated
    floats ([store > 1], [cached_ratios_sum + 1 < compression_ratio]) decides
    which iteration puts a point out, and binary64 rounding can move that
    decision to a neighbouring iteration.  What is proved about these two
    loops is therefore what holds whichever iterations flush (positions, the
    last point, normalised values, what is pending), what one step computes,
    and runs on small inputs whose every operation is exact in binary64 as
    well.  How many points a compressed result has is not derived from the
    exact sums.

    Errors.  A Python call either returns or raises; [result] records
    which, with one constructor of [exn] per exception class the module
    raises (or lets escape).

    Mutation.  List objects live in a store ([heap]); a function that
    receives a list receives its location. *)

From Stdlib Require Import ZArith QArith Qround Lia Lqa Permutation Sorted.
From stdpp Require Import base option list sorting gmap strings.

Local Open Scope Z_scope.

(** ** Exceptions and results *)

Inductive exn : Type :=
| InvalidArgumentsException   (* rally.exceptions.InvalidArgumentsException *)
| ValueError
| RuntimeError
| ZeroDivisionError
| KeyError
| IndexError.

Inductive result (A : Type) : Type :=
| Ok (a : A)
| Raise (e : exn).
Arguments Ok {A} a.
Arguments Raise {A} e.

Definition rbind {A B} (r : result A) (k : A -> result B) : result B :=
  match r with
  | Ok a => k a
  | Raise e => Raise e
  end.

(** ** Python arithmetic on the rational model *)

(** [a < b] on numbers. *)
Definition Qltb (a b : Q) : bool := negb (Qle_bool b a).

(** [a / b]: true division raises on a zero divisor. *)
Definition py_div (a b : Q) : result Q :=
  if Qeq_bool b 0 then Raise ZeroDivisionError else Ok (a / b)%Q.

(** [int(x)] on a float: truncation toward zero. *)
Definition py_int (x : Q) : Z := Z.quot (Qnum x) (Z.pos (Qden x)).

(** [sum(xs)]: left-to-right, starting from [0]. *)
Definition py_sum (xs : list Q) : Q := fold_left Qplus xs 0%Q.

(** [l[i]] with Python's negative indices and [IndexError]. *)
Definition getitem {A} (l : list A) (i : Z) : result A :=
  let n := Z.of_nat (length l) in
  let j := if i <? 0 then i + n else i in
  if (0 <=? j) && (j <? n)
  then match l !! Z.to_nat j with
       | Some x => Ok x
       | None => Raise IndexError
       end
  else Raise IndexError.

(** [sorted(l)] / [l.sort()]: a stable sort that only uses [<]. *)
Fixpoint insert_sorted (x : Q) (l : list Q) : list Q :=
  match l with
  | [] => [x]
  | y :: l' => if Qltb y x then y :: insert_sorted x l' else x :: y :: l'
  end.

Definition sorted (l : list Q) : list Q := foldr insert_sorted [] l.

(** ** The store of list objects *)

Definition loc : Type := positive.
Abbreviation heap := (gmap loc (list Q)).

(** Computations that read and update the store and may raise.  The store
    is returned in both cases: what a call did before it raised stays
    done. *)
Definition M (A : Type) : Type := heap -> result A * heap.

Definition ret {A} (a : A) : M A := fun h => (Ok a, h).
Definition raise {A} (e : exn) : M A := fun h => (Raise e, h).
Definition lift {A} (r : result A) : M A := fun h => (r, h).
Definition bind {A B} (m : M A) (k : A -> M B) : M B :=
  fun h => match m h with
           | (Ok a, h') => k a h'
           | (Raise e, h') => (Raise e, h')
           end.
Definition read (l : loc) : M (list Q) := fun h => (Ok (h !!! l), h).
Definition write (l : loc) (vs : list Q) : M unit :=
  fun h => (Ok tt, <[l := vs]> h).

Notation "'do' x <- m ; k" := (bind m (fun x => k))
  (at level 10, x name, m at level 100, k at level 200).

Definition is_nil {A} (l : list A) : bool :=
  match l with [] => true | _ => false end.

(** * Statistics *)

Module Stats.

(** [math.fsum]: the exactly rounded sum, here the exact sum. *)
Definition fsum (xs : list Q) : Q := foldr Qplus 0%Q xs.

Definition mean (values : loc) : M Q :=
  do vs <- read values;
  if is_nil vs then raise InvalidArgumentsException
  else lift (py_div (fsum vs) (inject_Z (Z.of_nat (length vs)))).

Definition median (values : loc) : M Q :=
  do vs <- read values;
  if is_nil vs then raise ValueError
  else
    (* values = sorted(values): rebinds the local name to a new list *)
    let values' := sorted vs in
    let size := Z.of_nat (length values') in
    if size mod 2 =? 1 then lift (getitem values' (size / 2))
    else
      let index := size / 2 in
      do a <- lift (getitem values' (index - 1));
      do b <- lift (getitem values' index);
      ret ((a + b) / 2)%Q.

Definition percentile (values : loc) (percent : Q) : M (option Q) :=
  do vs <- read values;
  if is_nil vs then ret None
  else
    (* values.sort(): sorts the caller's list object *)
    do _ <- write values (sorted vs);
    do vs <- read values;
    let k := (inject_Z (Z.of_nat (length vs) - 1) * percent)%Q in
    let f := Qfloor k in
    let c := Qceiling k in
    if f =? c then
      do x <- lift (getitem vs (py_int k));
      ret (Some x)
    else
      do a <- lift (getitem vs f);
      let d0 := (a * (inject_Z c - k))%Q in
      do b <- lift (getitem vs c);
      let d1 := (b * (k - inject_Z f))%Q in
      ret (Some (d0 + d1)%Q).

End Stats.

(** * Atomic-action extractor *)

Module Atomic.

(** A raw record of the scenario runner.  [row["atomic_actions"]] may be
    missing ([None] here); a value stored in it may be Python's [None]
    (the inner [option]).  Dictionaries keep insertion order. *)
Record row : Type := {
  error : bool;
  duration : Q;
  atomic_actions : option (list (string * option Q))
}.

(** [d.get(k)] on an insertion-ordered dictionary. *)
Fixpoint dict_get {V} (d : list (string * V)) (k : string) : option V :=
  match d with
  | [] => None
  | (k', v) :: d' => if String.eqb k' k then Some v else dict_get d' k
  end.

(** [d[k] = v] on an [OrderedDict]: an existing key keeps its place. *)
Fixpoint od_set {V} (d : list (string * V)) (k : string) (v : V)
  : list (string * V) :=
  match d with
  | [] => [(k, v)]
  | (k', v') :: d' =>
      if String.eqb k' k then (k', v) :: d' else (k', v') :: od_set d' k v
  end.

(** The first loop: names of the first row that is not an error and has
    the key ["atomic_actions"]. *)
Fixpoint first_actions (raw_data : list row) : list string :=
  match raw_data with
  | [] => []
  | r :: rest =>
      match atomic_actions r with
      | Some d => if negb (error r) then map fst d else first_actions rest
      | None => first_actions rest
      end
  end.

(** [[r["atomic_actions"][a] for r in raw_data
      if r["atomic_actions"].get(a) is not None]] *)
Fixpoint action_column (a : string) (raw_data : list row) : result (list Q) :=
  match raw_data with
  | [] => Ok []
  | r :: rest =>
      match atomic_actions r with
      | None => Raise KeyError
      | Some d =>
          rbind (action_column a rest) (fun col =>
          match dict_get d a with
          | Some (Some q) => Ok (q :: col)
          | _ => Ok col
          end)
      end
  end.

(** [[r["duration"] for r in raw_data if not r["error"]]] *)
Definition total_column (raw_data : list row) : list Q :=
  map duration (List.filter (fun r => negb (error r)) raw_data).

Fixpoint fill_actions (names : list string) (raw_data : list row)
  (actions_data : list (string * list Q)) : result (list (string * list Q)) :=
  match names with
  | [] => Ok actions_data
  | a :: names' =>
      rbind (action_column a raw_data) (fun col =>
      fill_actions names' raw_data (od_set actions_data a col))
  end.

Definition get_atomic_actions_data (raw_data : list row)
  : result (list (string * list Q)) :=
  rbind (fill_actions (first_actions raw_data) raw_data []) (fun actions_data =>
  Ok (od_set actions_data "total" (total_column raw_data))).

(** Sample rows: an error row, two good rows with action ["a"], and a good
    row whose mapping is empty. *)
Definition row_failed : row :=
  {| error := true; duration := 7; atomic_actions := Some [] |}.
Definition row_a1 : row :=
  {| error := false; duration := 2;
     atomic_actions := Some [("a"%string, Some 1%Q)] |}.
Definition row_a2 : row :=
  {| error := false; duration := 3;
     atomic_actions := Some [("a"%string, Some (3 # 2))] |}.
Definition row_no_actions : row :=
  {| error := false; duration := 1; atomic_actions := Some [] |}.

(** A good row that has no ["atomic_actions"] key. *)
Definition row_no_key : row :=
  {| error := false; duration := 4; atomic_actions := None |}.

(** [r["atomic_actions"].get(a)] when the row has the mapping and the value
    is not [None]. *)
Definition action_value (a : string) (r : row) : option Q :=
  match atomic_actions r with
  | Some d => match dict_get d a with
              | Some (Some q) => Some q
              | _ => None
              end
  | None => None
  end.

(** A row the first loop steps over. *)
Definition skipped (r : row) : Prop :=
  error r = true \/ atomic_actions r = None.

(** The specification's wording of the first loop, for comparison: names of
    the first row with [error = false] and a non-empty mapping. *)
Fixpoint spec_first_actions (raw_data : list row) : list string :=
  match raw_data with
  | [] => []
  | r :: rest =>
      match atomic_actions r with
      | Some (kv :: d) =>
          if negb (error r) then map fst (kv :: d) else spec_first_actions rest
      | _ => spec_first_actions rest
      end
  end.

End Atomic.

(** * Batch compressor *)

Module Compress.

Section WithRound.

(** Python's [round(x, 2)]; its tie-breaking rule differs between Python
    versions and no property below depends on it. *)
Variable round2 : Q -> Q.

(** [lambda i: i and round(float(i), 2) or 0.0] *)
Definition default_normalize (i : Q) : Q :=
  if Qeq_bool i 0 then 0%Q
  else let r := round2 i in if Qeq_bool r 0 then 0%Q else r.

(** [lambda a, b: normalize((a + normalize(b)) / 2)] *)
Definition default_merge (normalize : Q -> Q) (a b : Q) : Q :=
  normalize ((a + normalize b) / 2)%Q.

(** [enumerate(data, start)] *)
Fixpoint enumerate {A} (start : Z) (data : list A) : list (Z * A) :=
  match data with
  | [] => []
  | v :: rest => (start, v) :: enumerate (start + 1) rest
  end.

(** The variables of the reduction loop.  [cur_value] is unbound in Python
    until the first iteration assigns it; it is never read before.  [store]
    and [factor] are floats in the code and rationals here: the loop below
    makes the flush decisions of exact arithmetic, which binary64 can shift
    by an iteration. *)
Record loop_state : Type := {
  store : Q;
  first : bool;
  cur_value : Q;
  result_list : list (Z * Q)
}.

Definition loop_body (normalize : Q -> Q) (merge : Q -> Q -> Q) (factor : Q)
  (st : loop_state) (iv : Z * Q) : loop_state :=
  let '(idx, value) := iv in
  let store1 := (store st + factor)%Q in
  let cur := if first st then normalize value else merge (cur_value st) value in
  if Qltb 1 store1
  then {| store := (store1 - 1)%Q; first := true; cur_value := cur;
          result_list := result_list st ++ [(idx, cur)] |}
  else {| store := store1; first := false; cur_value := cur;
          result_list := result_list st |}.

Definition loop_init : loop_state :=
  {| store := 0%Q; first := true; cur_value := 0%Q; result_list := [] |}.

(** The [for] loop over [enumerate(data, start=1)]. *)
Definition walk (normalize : Q -> Q) (merge : Q -> Q -> Q) (factor : Q)
  (data : list Q) : loop_state :=
  fold_left (loop_body normalize merge factor) (enumerate 1 data) loop_init.

Definition compress (data : list Q) (limit : Z)
  (merge : option (Q -> Q -> Q)) (normalize : option (Q -> Q))
  : result (list (Z * Q)) :=
  let normalize := default default_normalize normalize in
  let merge := default (default_merge normalize) merge in
  let len := Z.of_nat (length data) in
  if len <=? limit
  then Ok (map (fun iv => (fst iv, normalize (snd iv))) (enumerate 1 data))
  else
    rbind (py_div (inject_Z limit) (inject_Z len)) (fun factor =>
    let st := walk normalize merge factor data in
    Ok (if first st then result_list st
        else result_list st ++ [(len, cur_value st)])).

End WithRound.

(** Rounding to two decimals, to the nearest with ties to even, for
    running [compress] on sample inputs. *)
Definition round_half_even (x : Q) : Z :=
  let f := Qfloor x in
  let r := (x - inject_Z f)%Q in
  if Qltb r (1 # 2) then f
  else if Qltb (1 # 2) r then f + 1
  else if Z.even f then f else f + 1.

Definition round2_even (x : Q) : Q :=
  (inject_Z (round_half_even (x * 100)) / 100)%Q.

End Compress.

(** * Streaming compressor *)

Module Zipper.

(** What [add_point] may be handed: a number ([int], [float]) or anything
    else. *)
Inductive pyobj : Type :=
| PyNum (q : Q)
| PyOther.

(** The attributes of a [GraphZipper] instance.  [compression_ratio] and
    [cached_ratios_sum] are floats in the code (the latter an [int] until the
    first flush) and rationals here. *)
Record GraphZipper : Type := {
  base_size : Z;
  zipped_size : Z;
  compression_ratio : Q;
  point_order : Z;
  cached_ratios_sum : Q;
  ratio_value_points : list (Q * Q);
  zipped_graph : list (Z * Q)
}.

(** [GraphZipper(base_size, zipped_size)] *)
Definition init (base_size zipped_size : Z) : result GraphZipper :=
  rbind (if base_size >=? zipped_size
         then py_div (inject_Z base_size) (inject_Z zipped_size)
         else Ok 1%Q) (fun ratio =>
  Ok {| base_size := base_size;
        zipped_size := zipped_size;
        compression_ratio := ratio;
        point_order := 0;
        cached_ratios_sum := 0%Q;
        ratio_value_points := [];
        zipped_graph := [] |}).

Definition get_zipped_point (self : GraphZipper) : result (Z * Q) :=
  let order :=
    if Qle_bool (inject_Z (point_order self) - compression_ratio self) 1
    then 1
    else if point_order self =? base_size self then base_size self
    else point_order self - py_int (compression_ratio self / 2) in
  rbind (py_div (py_sum (map (fun p => (fst p * snd p)%Q)
                             (ratio_value_points self)))
                (compression_ratio self)) (fun value =>
  Ok (order, value)).

Definition set_point_order (self : GraphZipper) (n : Z) : GraphZipper :=
  {| base_size := base_size self;
     zipped_size := zipped_size self;
     compression_ratio := compression_ratio self;
     point_order := n;
     cached_ratios_sum := cached_ratios_sum self;
     ratio_value_points := ratio_value_points self;
     zipped_graph := zipped_graph self |}.

Definition set_window (self : GraphZipper) (sum : Q) (points : list (Q * Q))
  : GraphZipper :=
  {| base_size := base_size self;
     zipped_size := zipped_size self;
     compression_ratio := compression_ratio self;
     point_order := point_order self;
     cached_ratios_sum := sum;
     ratio_value_points := points;
     zipped_graph := zipped_graph self |}.

Definition append_graph (self : GraphZipper) (p : Z * Q) : GraphZipper :=
  {| base_size := base_size self;
     zipped_size := zipped_size self;
     compression_ratio := compression_ratio self;
     point_order := point_order self;
     cached_ratios_sum := cached_ratios_sum self;
     ratio_value_points := ratio_value_points self;
     zipped_graph := zipped_graph self ++ [p] |}.

(** [if not isinstance(value, (int, float)): value = 0] *)
Definition coerce (value : pyobj) : Q :=
  match value with
  | PyNum q => q
  | PyOther => 0%Q
  end.

(** [self.add_point(value)]: the outcome of the call and the instance
    afterwards (the attribute updates made before a [raise] stay). *)
Definition add_point (self : GraphZipper) (value : pyobj)
  : result unit * GraphZipper :=
  let self := set_point_order self (point_order self + 1) in
  if point_order self >? base_size self then (Raise RuntimeError, self)
  else
    let value := coerce value in
    if Qle_bool (compression_ratio self) 1
    then (Ok tt, append_graph self (point_order self, value))
    else if Qltb (cached_ratios_sum self + 1) (compression_ratio self)
    then (Ok tt, set_window self (cached_ratios_sum self + 1)%Q
                   (ratio_value_points self ++ [(1%Q, value)]))
    else
      let rest := (compression_ratio self - cached_ratios_sum self)%Q in
      let self := set_window self (cached_ratios_sum self)
                    (ratio_value_points self ++ [(rest, value)]) in
      match get_zipped_point self with
      | Raise e => (Raise e, self)
      | Ok p =>
          let self := append_graph self p in
          let self := set_window self (cached_ratios_sum self)
                        [((1 - rest)%Q, value)] in
          (Ok tt, set_window self (1 - rest)%Q (ratio_value_points self))
      end.

Definition get_zipped_graph (self : GraphZipper) : list (Z * Q) :=
  zipped_graph self.

(** A sample instance: [GraphZipper(3, 2)] after one point of value 4. *)
Definition zipper_3_2_fed_once : GraphZipper :=
  {| base_size := 3;
     zipped_size := 2;
     compression_ratio := 3 # 2;
     point_order := 1;
     cached_ratios_sum := 0 + 1;
     ratio_value_points := [(1%Q, 4%Q)];
     zipped_graph := [] |}.

(** The position [_get_zipped_point] gives a point flushed at
    [point_order = p], as the specification words it. *)
Definition flushed_position (base_size : Z) (ratio : Q) (p : Z) : Z :=
  if Qle_bool (inject_Z p - ratio) 1 then 1
  else if p =? base_size then base_size
  else p - Qfloor (ratio / 2).

(** What holds of an instance as long as its graph is empty, and of the
    first point once it is not: that point is at position 1. *)
Definition first_point_inv (self : GraphZipper) : Prop :=
  (forall q v rest, zipped_graph self = (q, v) :: rest -> q = 1) /\
  (zipped_graph self = [] ->
   base_size self <= point_order self \/
   (((compression_ratio self <= 1)%Q -> point_order self = 0) /\
    ((1 < compression_ratio self)%Q ->
     (cached_ratios_sum self == inject_Z (point_order self))%Q /\
     (cached_ratios_sum self < compression_ratio self)%Q))).

(** What bounds the pending contributions: one full weight each beyond the
    first, all counted in [cached_ratios_sum], which stays below the
    ratio. *)
Definition pending_inv (self : GraphZipper) : Prop :=
  (inject_Z (Z.of_nat (length (ratio_value_points self)))
   <= cached_ratios_sum self + 1)%Q /\
  ((1 < compression_ratio self)%Q ->
   (cached_ratios_sum self < compression_ratio self)%Q) /\
  ((compression_ratio self <= 1)%Q -> (cached_ratios_sum self == 0)%Q).

(** Feeding a sequence of values, one [add_point] after the other: the
    instance at the end, and the outcome of every call. *)
Fixpoint feed (self : GraphZipper) (values : list pyobj) : GraphZipper :=
  match values with
  | [] => self
  | v :: rest => feed (snd (add_point self v)) rest
  end.

Fixpoint outcomes (self : GraphZipper) (values : list pyobj)
  : list (result unit) :=
  match values with
  | [] => []
  | v :: rest =>
      fst (add_point self v) :: outcomes (snd (add_point self v)) rest
  end.

End Zipper.

(** * Properties *)

(** ** Comparisons and rounding on the rational model *)

Lemma Qltb_lt (a b : Q) : Qltb a b = true <-> (a < b)%Q.
Proof.
  unfold Qltb. rewrite negb_true_iff. split.
  - intros H. apply Qnot_le_lt. intros Hle.
    apply Qle_bool_iff in Hle. congruence.
  - intros H. destruct (Qle_bool b a) eqn:E; [|reflexivity].
    apply Qle_bool_iff in E. exfalso. exact (Qlt_not_le _ _ H E).
Qed.

Lemma Qltb_ge (a b : Q) : Qltb a b = false <-> (b <= a)%Q.
Proof.
  unfold Qltb. rewrite negb_false_iff. apply Qle_bool_iff.
Qed.

Lemma Qle_bool_gt (a b : Q) : Qle_bool a b = false <-> (b < a)%Q.
Proof.
  rewrite <- Qltb_lt. unfold Qltb. rewrite negb_true_iff. reflexivity.
Qed.

(** On a non-negative number [int(x)] is [floor(x)]. *)
Lemma py_int_floor (x : Q) : (0 <= x)%Q -> py_int x = Qfloor x.
Proof.
  intros Hx. unfold py_int. destruct x as [n d]. simpl.
  apply Z.quot_div_nonneg; [|lia].
  unfold Qle in Hx. simpl in Hx. lia.
Qed.

Lemma Qfloor_nonneg (x : Q) : (0 <= x)%Q -> 0 <= Qfloor x.
Proof.
  intros Hx. change 0 with (Qfloor (inject_Z 0)).
  rewrite Qfloor_Z. rewrite <- (Qfloor_Z 0). apply Qfloor_resp_le. exact Hx.
Qed.

Lemma Qceiling_le_Z (x : Q) (n : Z) : (x <= inject_Z n)%Q -> Qceiling x <= n.
Proof.
  intros Hx. rewrite <- (Qceiling_Z n). apply Qceiling_resp_le. exact Hx.
Qed.

Lemma Qfloor_le_ceiling (x : Q) : Qfloor x <= Qceiling x.
Proof.
  rewrite Zle_Qle. eapply Qle_trans; [apply Qfloor_le | apply Qle_ceiling].
Qed.

Lemma Qfloor_eq_ceiling (x : Q) :
  Qfloor x = Qceiling x -> (inject_Z (Qfloor x) == x)%Q.
Proof.
  intros H. apply Qle_antisym; [apply Qfloor_le|].
  rewrite H. apply Qle_ceiling.
Qed.

(** ** Indexing and sorting *)

Lemma getitem_in_range {A} (l : list A) (i : Z) :
  0 <= i < Z.of_nat (length l) ->
  exists x, l !! Z.to_nat i = Some x /\ getitem l i = Ok x.
Proof.
  intros [Hlo Hhi]. unfold getitem.
  destruct (i <? 0) eqn:Hneg; [apply Z.ltb_lt in Hneg; lia|].
  assert (Hin : (0 <=? i) && (i <? Z.of_nat (length l)) = true).
  { apply andb_true_iff. split; [apply Z.leb_le | apply Z.ltb_lt]; lia. }
  rewrite Hin.
  destruct (l !! Z.to_nat i) as [x|] eqn:Hx.
  - exists x. split; reflexivity.
  - apply lookup_ge_None in Hx. lia.
Qed.

Lemma insert_sorted_perm (x : Q) (l : list Q) :
  Permutation (insert_sorted x l) (x :: l).
Proof.
  induction l as [|y l IH]; simpl; [reflexivity|].
  destruct (Qltb y x); [|reflexivity].
  rewrite IH. apply perm_swap.
Qed.

Lemma sorted_perm (l : list Q) : Permutation (sorted l) l.
Proof.
  induction l as [|x l IH]; simpl; [reflexivity|].
  rewrite insert_sorted_perm. constructor. exact IH.
Qed.

Lemma sorted_length (l : list Q) : length (sorted l) = length l.
Proof. apply Permutation_length, sorted_perm. Qed.

Lemma insert_sorted_ordered (x : Q) (l : list Q) :
  StronglySorted Qle l -> StronglySorted Qle (insert_sorted x l).
Proof.
  induction l as [|y l IH]; simpl; intros Hs.
  - constructor; constructor.
  - inversion Hs as [|? ? Hl Hy]; subst.
    destruct (Qltb y x) eqn:E.
    + apply Qltb_lt in E. constructor; [apply IH; exact Hl|].
      apply Forall_forall. intros z Hz.
      apply list_elem_of_In in Hz.
      apply (Permutation_in _ (insert_sorted_perm x l)) in Hz.
      destruct Hz as [<-|Hz]; [apply Qlt_le_weak; exact E|].
      rewrite Forall_forall in Hy. apply Hy. apply list_elem_of_In. exact Hz.
    + apply Qltb_ge in E. constructor; [exact Hs|].
      constructor; [exact E|].
      eapply Forall_impl; [exact Hy|].
      intros z Hz. simpl in Hz. eapply Qle_trans; eassumption.
Qed.

Lemma sorted_ordered (l : list Q) : StronglySorted Qle (sorted l).
Proof.
  induction l as [|x l IH]; simpl; [constructor|].
  apply insert_sorted_ordered. exact IH.
Qed.

Lemma sorted_nil_inv (l : list Q) : sorted l = [] -> l = [].
Proof.
  intros H. apply (f_equal length) in H. rewrite sorted_length in H.
  destruct l; [reflexivity|discriminate].
Qed.

(** ** Statistics *)

(** C4, as amended: on an empty list [mean] raises
    [InvalidArgumentsException], [median] raises [ValueError] (another
    exception class), and [percentile] returns [None] for every percent. *)
Theorem empty_input_outcomes (values : loc) (percent : Q) (h : heap) :
  h !!! values = [] ->
  fst (Stats.mean values h) = Raise InvalidArgumentsException /\
  fst (Stats.median values h) = Raise ValueError /\
  fst (Stats.percentile values percent h) = Ok None.
Proof.
  intros Hempty.
  unfold Stats.mean, Stats.median, Stats.percentile, bind, read.
  rewrite Hempty. simpl. repeat split.
Qed.

Lemma empty_input_outcomes_witness :
  ({[1%positive := []]} : heap) !!! 1%positive = [] /\
  fst (Stats.mean 1%positive {[1%positive := []]})
    = Raise InvalidArgumentsException /\
  fst (Stats.median 1%positive {[1%positive := []]}) = Raise ValueError /\
  fst (Stats.percentile 1%positive (1 # 2) {[1%positive := []]}) = Ok None.
Proof.
  split; [reflexivity|].
  apply (empty_input_outcomes 1%positive (1 # 2) {[1%positive := []]}).
  reflexivity.
Defined.

(** C4, as stated, fails: [median] on an empty list does not raise the
    exception [mean] raises. *)
Lemma median_empty_not_invalid_arguments :
  ~ (fst (Stats.mean 1%positive {[1%positive := []]})
       = Raise InvalidArgumentsException /\
     fst (Stats.median 1%positive {[1%positive := []]})
       = Raise InvalidArgumentsException).
Proof.
  intros [_ H]. vm_compute in H. discriminate H.
Qed.

Lemma percentile_store (values : loc) (percent : Q) (h : heap) :
  h !!! values <> [] ->
  snd (Stats.percentile values percent h)
    = <[values := sorted (h !!! values)]> h.
Proof.
  intros Hne. unfold Stats.percentile, bind, read, write, lift, ret.
  destruct (h !!! values) as [|v vs] eqn:Hvs; [congruence|].
  cbn [is_nil]. cbv beta iota.
  destruct (_ =? _).
  - destruct (getitem _ _); reflexivity.
  - destruct (getitem _ _); [|reflexivity].
    destruct (getitem _ _); reflexivity.
Qed.

Lemma median_store (values : loc) (h : heap) :
  snd (Stats.median values h) = h.
Proof.
  unfold Stats.median, bind, read, lift, ret, raise.
  destruct (is_nil _); [reflexivity|]. cbv zeta.
  destruct (_ =? _); [reflexivity|].
  destruct (getitem _ _); [|reflexivity].
  destruct (getitem _ _); reflexivity.
Qed.

(** C9: [median] leaves the store as it found it, so the caller's list is
    unchanged; [percentile] on a non-empty list overwrites the caller's
    list object with the sorted permutation of its contents (and touches no
    other object). *)
Theorem median_keeps_percentile_sorts (values : loc) (percent : Q) (h : heap) :
  snd (Stats.median values h) = h /\
  (h !!! values <> [] ->
   exists s,
     snd (Stats.percentile values percent h) = <[values := s]> h /\
     snd (Stats.percentile values percent h) !!! values = s /\
     StronglySorted Qle s /\
     Permutation s (h !!! values)).
Proof.
  split; [apply median_store|].
  intros Hne. exists (sorted (h !!! values)).
  rewrite percentile_store by exact Hne.
  split; [reflexivity|]. split; [apply lookup_total_insert_eq|].
  split; [apply sorted_ordered | apply sorted_perm].
Qed.

Lemma median_keeps_percentile_sorts_witness :
  ({[1%positive := [3; 1; 2]%Q]} : heap) !!! 1%positive <> [] /\
  snd (Stats.median 1%positive {[1%positive := [3; 1; 2]%Q]})
    = {[1%positive := [3; 1; 2]%Q]} /\
  exists s,
    snd (Stats.percentile 1%positive (1 # 2) {[1%positive := [3; 1; 2]%Q]})
      !!! 1%positive = s /\
    StronglySorted Qle s /\
    Permutation s [3; 1; 2]%Q.
Proof.
  destruct (median_keeps_percentile_sorts 1%positive (1 # 2)
              {[1%positive := [3; 1; 2]%Q]}) as [Hm Hp].
  split; [discriminate|]. split; [exact Hm|].
  destruct Hp as (s & _ & Hs & Hsorted & Hperm); [discriminate|].
  exists s. repeat split; assumption.
Defined.

Lemma rank_bounds (n : Z) (percent : Q) :
  1 <= n -> (0 <= percent)%Q -> (percent <= 1)%Q ->
  let k := (inject_Z (n - 1) * percent)%Q in
  (0 <= k)%Q /\ 0 <= Qfloor k /\ Qfloor k <= Qceiling k /\ Qceiling k < n.
Proof.
  intros Hn H0 H1 k.
  assert (Hn1 : (0 <= inject_Z (n - 1))%Q).
  { change 0%Q with (inject_Z 0). rewrite <- Zle_Qle. lia. }
  assert (Hk0 : (0 <= k)%Q) by (apply Qmult_le_0_compat; assumption).
  assert (Hk1 : (k <= inject_Z (n - 1))%Q).
  { unfold k. rewrite <- (Qmult_1_r (inject_Z (n - 1))) at 2.
    rewrite (Qmult_comm _ percent), (Qmult_comm _ 1).
    apply Qmult_le_compat_r; assumption. }
  split; [exact Hk0|]. split; [apply Qfloor_nonneg; exact Hk0|].
  split; [apply Qfloor_le_ceiling|].
  apply Qceiling_le_Z in Hk1. lia.
Qed.

(** C8: on a non-empty list and a percent in [0, 1], [percentile] returns
    a number computed from the sorted values [s] at rank
    [k = (n - 1) * percent]: [s[k]] itself when [k] is an integer (that is,
    when its floor and ceiling agree), and otherwise
    [s[floor k] * (ceil k - k) + s[ceil k] * (k - floor k)].  In particular
    [percentile([1, 2, 3, 4], 0.5) == 2.5] and
    [percentile([10], 0.9) == 10]. *)
Theorem percentile_interpolates :
  (forall (values : loc) (percent : Q) (h : heap),
     h !!! values <> [] -> (0 <= percent)%Q -> (percent <= 1)%Q ->
     let s := sorted (h !!! values) in
     let k := (inject_Z (Z.of_nat (length (h !!! values)) - 1) * percent)%Q in
     StronglySorted Qle s /\ Permutation s (h !!! values) /\
     (Qfloor k = Qceiling k <-> (inject_Z (Qfloor k) == k)%Q) /\
     exists lo hi,
       0 <= Qfloor k /\
       s !! Z.to_nat (Qfloor k) = Some lo /\
       s !! Z.to_nat (Qceiling k) = Some hi /\
       fst (Stats.percentile values percent h) =
         Ok (Some (if Qfloor k =? Qceiling k then lo
                   else (lo * (inject_Z (Qceiling k) - k)
                         + hi * (k - inject_Z (Qfloor k)))%Q))) /\
  (exists r,
     fst (Stats.percentile 1%positive (1 # 2)
            {[1%positive := [1; 2; 3; 4]%Q]}) = Ok (Some r) /\
     (r == 5 # 2)%Q) /\
  (exists r,
     fst (Stats.percentile 1%positive (9 # 10) {[1%positive := [10%Q]]})
       = Ok (Some r) /\
     (r == 10)%Q).
Proof.
  split; [|split; eexists; (split; [vm_compute; reflexivity | reflexivity])].
  intros values percent h Hne H0 H1 s k.
  split; [apply sorted_ordered|]. split; [apply sorted_perm|].
  split.
  { split; [apply Qfloor_eq_ceiling|].
    intros Hk. rewrite <- Hk at 2. rewrite Qceiling_Z. reflexivity. }
  assert (Hlen : 1 <= Z.of_nat (length (h !!! values))).
  { destruct (h !!! values); [congruence|]. simpl length. lia. }
  destruct (rank_bounds _ percent Hlen H0 H1) as (Hk0 & Hf0 & Hfc & Hcn).
  fold k in Hk0, Hf0, Hfc, Hcn.
  assert (Hs : Z.of_nat (length s) = Z.of_nat (length (h !!! values))).
  { unfold s. rewrite sorted_length. reflexivity. }
  destruct (getitem_in_range s (Qfloor k)) as (lo & Hlo & Hglo); [lia|].
  destruct (getitem_in_range s (Qceiling k)) as (hi & Hhi & Hghi); [lia|].
  exists lo, hi. split; [exact Hf0|]. split; [exact Hlo|]. split; [exact Hhi|].
  unfold Stats.percentile, bind, read, write, lift, ret.
  destruct (h !!! values) as [|v vs] eqn:Hvs; [congruence|].
  cbn [is_nil]. cbv beta iota. rewrite lookup_total_insert_eq.
  rewrite sorted_length. fold s. fold k.
  destruct (Qfloor k =? Qceiling k) eqn:E.
  - rewrite (py_int_floor k Hk0), Hglo. reflexivity.
  - rewrite Hglo, Hghi. reflexivity.
Qed.

Lemma percentile_interpolates_witness :
  ({[1%positive := [4; 1; 3; 2]%Q]} : heap) !!! 1%positive <> [] /\
  (0 <= 1 # 2)%Q /\ (1 # 2 <= 1)%Q /\
  exists lo hi,
    sorted [4; 1; 3; 2]%Q !! 1%nat = Some lo /\
    sorted [4; 1; 3; 2]%Q !! 2%nat = Some hi /\
    fst (Stats.percentile 1%positive (1 # 2) {[1%positive := [4; 1; 3; 2]%Q]})
      = Ok (Some (lo * (inject_Z 2 - inject_Z 3 * (1 # 2))
                  + hi * (inject_Z 3 * (1 # 2) - inject_Z 1))%Q).
Proof.
  assert (Hne : ({[1%positive := [4; 1; 3; 2]%Q]} : heap) !!! 1%positive <> [])
    by discriminate.
  assert (H0 : (0 <= 1 # 2)%Q) by discriminate.
  assert (H1 : (1 # 2 <= 1)%Q) by discriminate.
  split; [exact Hne|]. split; [exact H0|]. split; [exact H1|].
  destruct (proj1 percentile_interpolates 1%positive (1 # 2)
              {[1%positive := [4; 1; 3; 2]%Q]} Hne H0 H1)
    as (_ & _ & _ & lo & hi & _ & Hlo & Hhi & Hr).
  exists lo, hi. split; [exact Hlo|]. split; [exact Hhi|]. exact Hr.
Defined.

(** ** Atomic-action extractor *)

Section AtomicFacts.

Import Atomic.
Local Open Scope string_scope.

Lemma dict_get_od_set_eq {V} (d : list (string * V)) (k : string) (v : V) :
  dict_get (od_set d k v) k = Some v.
Proof.
  induction d as [|[k' v'] d IH]; simpl.
  - rewrite String.eqb_refl. reflexivity.
  - destruct (String.eqb k' k) eqn:E; simpl; rewrite E; [reflexivity|exact IH].
Qed.

Lemma dict_get_od_set_ne {V} (d : list (string * V)) (k k' : string) (v : V) :
  k <> k' -> dict_get (od_set d k v) k' = dict_get d k'.
Proof.
  intros Hne. induction d as [|[k0 v0] d IH]; simpl.
  - destruct (String.eqb k k') eqn:E; [|reflexivity].
    apply String.eqb_eq in E. congruence.
  - destruct (String.eqb k0 k) eqn:E; simpl.
    + apply String.eqb_eq in E. subst k0.
      destruct (String.eqb k k') eqn:E'; [|reflexivity].
      apply String.eqb_eq in E'. congruence.
    + rewrite IH. reflexivity.
Qed.

Lemma first_actions_skip (pre rest : list row) :
  Forall skipped pre -> first_actions (pre ++ rest) = first_actions rest.
Proof.
  induction 1 as [|r pre Hr _ IH]; simpl; [reflexivity|].
  destruct Hr as [He|Ha].
  - rewrite He. simpl. destruct (atomic_actions r); exact IH.
  - rewrite Ha. exact IH.
Qed.

Lemma fill_actions_keys (names : list string) (raw_data : list row) :
  forall acc res,
    fill_actions names raw_data acc = Ok res ->
    forall a, is_Some (dict_get res a) <->
              (a ∈ names \/ is_Some (dict_get acc a)).
Proof.
  induction names as [|n names IH]; simpl; intros acc res Hres a.
  - inversion Hres; subst. split; [auto|].
    intros [Hin|H]; [inversion Hin|exact H].
  - destruct (action_column n raw_data) as [col|e]; simpl in Hres;
      [|discriminate].
    rewrite (IH _ _ Hres a). rewrite elem_of_cons.
    destruct (String.eqb n a) eqn:E.
    + apply String.eqb_eq in E. subst a.
      rewrite dict_get_od_set_eq. split; [auto|]. intros _. right. eauto.
    + apply String.eqb_neq in E.
      rewrite dict_get_od_set_ne by exact E. split.
      * intros [H|H]; auto.
      * intros [[H|H]|H]; auto. congruence.
Qed.

Lemma action_column_total (a : string) (raw_data : list row) :
  Forall (fun r => is_Some (atomic_actions r)) raw_data ->
  exists col, action_column a raw_data = Ok col.
Proof.
  induction 1 as [|r rest [d Hd] _ [col IH]]; simpl; [eauto|].
  rewrite Hd, IH. simpl.
  destruct (dict_get d a) as [[q|]|]; eauto.
Qed.

Lemma fill_actions_total (names : list string) (raw_data : list row) :
  Forall (fun r => is_Some (atomic_actions r)) raw_data ->
  forall acc, exists res, fill_actions names raw_data acc = Ok res.
Proof.
  intros Hall. induction names as [|n names IH]; simpl; intros acc; [eauto|].
  destruct (action_column_total n raw_data Hall) as [col ->]. simpl.
  apply IH.
Qed.

(** C5, as amended: the action names are the keys of the first row that has
    [error = false] and carries an atomic-actions mapping, empty or not
    (no names when there is no such row); whenever the function returns, the
    result maps ["total"] to the durations of the rows with [error = false]
    in their original order, and its other keys are exactly the action
    names; and it does return when every row carries a mapping. *)
Theorem atomic_actions_data_columns (raw_data : list row) :
  (forall pre r d post,
     raw_data = (pre ++ r :: post)%list -> Forall skipped pre ->
     error r = false -> atomic_actions r = Some d ->
     first_actions raw_data = map fst d) /\
  (Forall skipped raw_data -> first_actions raw_data = []) /\
  (forall res,
     get_atomic_actions_data raw_data = Ok res ->
     dict_get res "total"
       = Some (map duration (List.filter (fun r => negb (error r)) raw_data)) /\
     forall a, a <> "total" ->
       (is_Some (dict_get res a) <-> a ∈ first_actions raw_data)) /\
  (Forall (fun r => is_Some (atomic_actions r)) raw_data ->
   exists res, get_atomic_actions_data raw_data = Ok res).
Proof.
  split; [|split; [|split]].
  - intros pre r d post -> Hpre He Ha.
    rewrite first_actions_skip by exact Hpre. simpl. rewrite Ha, He.
    reflexivity.
  - intros Hall. rewrite <- (app_nil_r raw_data).
    rewrite first_actions_skip by exact Hall. reflexivity.
  - intros res Hres. unfold get_atomic_actions_data in Hres.
    destruct (fill_actions _ _ _) as [acc|e] eqn:Hfill; simpl in Hres;
      [|discriminate].
    inversion Hres; subst res. split; [apply dict_get_od_set_eq|].
    intros a Ha. rewrite dict_get_od_set_ne by congruence.
    rewrite (fill_actions_keys _ _ _ _ Hfill a). simpl. split.
    + intros [H|[x H]]; [exact H|discriminate].
    + auto.
  - intros Hall. unfold get_atomic_actions_data.
    destruct (fill_actions_total (first_actions raw_data) raw_data Hall [])
      as [acc ->].
    simpl. eauto.
Qed.

(** The rows of the specification's example: an error row without the
    action, then two good rows. *)
Lemma atomic_actions_data_columns_witness :
  Forall skipped [row_failed] /\
  first_actions [row_failed; row_a1; row_a2] = ["a"] /\
  get_atomic_actions_data [row_failed; row_a1; row_a2]
    = Ok [("a", [1%Q; 3 # 2]); ("total", [2%Q; 3%Q])] /\
  dict_get [("a", [1%Q; 3 # 2]); ("total", [2%Q; 3%Q])] "total"
    = Some [2%Q; 3%Q].
Proof.
  assert (Hskip : Forall skipped [row_failed]).
  { constructor; [left; reflexivity | constructor]. }
  destruct (atomic_actions_data_columns [row_failed; row_a1; row_a2])
    as (Hfirst & _ & Htot & _).
  split; [exact Hskip|].
  split.
  { apply (Hfirst [row_failed] row_a1 [("a", Some 1%Q)] [row_a2]);
      [reflexivity | exact Hskip | reflexivity | reflexivity]. }
  split; [reflexivity|].
  apply (Htot [("a", [1%Q; 3 # 2]); ("total", [2%Q; 3%Q])]). reflexivity.
Defined.

(** C5, as stated, fails: a first good row with an empty mapping already
    fixes the (empty) set of names; the later row's action ["a"] gets no
    column. *)
Lemma first_actions_accepts_empty_mapping :
  spec_first_actions [row_no_actions; row_a1] = ["a"] /\
  first_actions [row_no_actions; row_a1] = [] /\
  get_atomic_actions_data [row_no_actions; row_a1]
    = Ok [("total", [1%Q; 2%Q])] /\
  first_actions [row_no_actions; row_a1]
    <> spec_first_actions [row_no_actions; row_a1].
Proof.
  repeat split. discriminate.
Qed.

End AtomicFacts.

(** ** Positions of compressed points *)

Lemma positions_snoc (l : list Z) (x : Z) :
  StronglySorted Z.lt l -> Forall (fun y => y < x) l ->
  StronglySorted Z.lt (l ++ [x]).
Proof.
  intros Hl Hx. apply StronglySorted_app_2.
  - intros y z Hy Hz. apply list_elem_of_singleton in Hz. subst z.
    rewrite Forall_forall in Hx. apply Hx. exact Hy.
  - exact Hl.
  - repeat constructor.
Qed.

Lemma inject_Z_succ (i : Z) : (inject_Z (i + 1) == inject_Z i + 1)%Q.
Proof. rewrite inject_Z_plus. reflexivity. Qed.

Lemma inject_Z_nonzero (n : Z) : n <> 0 -> Qeq_bool (inject_Z n) 0 = false.
Proof.
  intros Hn. destruct (Qeq_bool (inject_Z n) 0) eqn:E; [|reflexivity].
  apply Qeq_bool_iff in E. unfold Qeq in E. simpl in E. lia.
Qed.

(** ** Batch compressor *)

Section CompressFacts.

Import Compress.

Variables (normalize : Q -> Q) (merge : Q -> Q -> Q) (factor : Q).

(** Where the loop has put its points after [i] values, for any [factor]:
    at increasing positions among the indices seen, and below the last
    index when the run in progress has not been flushed. *)
Lemma loop_positions (data : list Q) :
  forall (i : Z) (st : loop_state),
    0 <= i ->
    StronglySorted Z.lt (map fst (result_list st)) ->
    Forall (fun p => 1 <= p <= i) (map fst (result_list st)) ->
    (first st = false ->
     1 <= i /\ Forall (fun p => p < i) (map fst (result_list st))) ->
    let st' := fold_left (loop_body normalize merge factor) (enumerate (i + 1) data) st in
    let i' := i + Z.of_nat (length data) in
    StronglySorted Z.lt (map fst (result_list st')) /\
    Forall (fun p => 1 <= p <= i') (map fst (result_list st')) /\
    (first st' = false ->
     1 <= i' /\ Forall (fun p => p < i') (map fst (result_list st'))).
Proof.
  induction data as [|v data IH]; intros i st Hi Hs Hb Hf.
  - simpl. rewrite Z.add_0_r. auto.
  - cbn [enumerate fold_left length].
    replace (i + Z.of_nat (S (length data)))
      with ((i + 1) + Z.of_nat (length data)) by lia.
    apply IH; [lia| | |]; unfold loop_body;
      destruct (Qltb 1 (store st + factor)); cbn [result_list first].
    + rewrite map_app. apply positions_snoc; [exact Hs|].
      eapply Forall_impl; [exact Hb|]. simpl. intros; lia.
    + exact Hs.
    + rewrite map_app. apply Forall_app. split.
      * eapply Forall_impl; [exact Hb|]. simpl. intros; lia.
      * repeat constructor; simpl; lia.
    + eapply Forall_impl; [exact Hb|]. simpl. intros; lia.
    + discriminate.
    + intros _. split; [lia|].
      eapply Forall_impl; [exact Hb|]. simpl. intros; lia.
Qed.

End CompressFacts.

Section CompressClaims.

Import Compress.

Variable round2 : Q -> Q.

(** Below the length of the data the loop runs; whichever iterations flush,
    its points are at increasing positions among the indices. *)
Lemma compress_below_length (data : list Q) (limit : Z)
  (merge : option (Q -> Q -> Q)) (normalize : option (Q -> Q)) :
  data <> [] -> limit < Z.of_nat (length data) ->
  let norm := default (default_normalize round2) normalize in
  let mrg := default (default_merge norm) merge in
  let len := Z.of_nat (length data) in
  let st := walk norm mrg (inject_Z limit / inject_Z len) data in
  compress round2 data limit merge normalize
    = Ok (if first st then result_list st
          else result_list st ++ [(len, cur_value st)]) /\
  StronglySorted Z.lt (map fst (result_list st)) /\
  Forall (fun p => 1 <= p <= len) (map fst (result_list st)) /\
  (first st = false -> Forall (fun p => p < len) (map fst (result_list st))).
Proof.
  intros Hne Hlt norm mrg len st.
  assert (Hlen : 1 <= len).
  { unfold len. destruct data; [congruence|]. simpl length. lia. }
  split.
  { unfold compress. fold norm. fold mrg. fold len.
    destruct (len <=? limit) eqn:E; [apply Z.leb_le in E; lia|].
    unfold py_div. rewrite inject_Z_nonzero by lia. reflexivity. }
  destruct (loop_positions norm mrg (inject_Z limit / inject_Z len) data
              0 loop_init) as (Hs & Hb & Hf);
    [lia | constructor | constructor | discriminate |].
  change (0 + 1) with 1 in Hs, Hb, Hf. rewrite Z.add_0_l in Hb, Hf.
  fold (walk norm mrg (inject_Z limit / inject_Z len) data) in Hs, Hb, Hf.
  fold st in Hs, Hb, Hf. fold len in Hb, Hf.
  split; [exact Hs|]. split; [exact Hb|].
  intros H; apply Hf; exact H.
Qed.

End CompressClaims.

(** C1: [compress] does not keep to its limit when the limit is 0.  The
    docstring calls [limit] the "max length of result list" and the
    specification promises at most [L] points for [L < len(S)], yet
    [compress([5.0], 0)] returns the one point [(1, 5.0)]: [factor] is
    [0.0 / 1], [store] stays [0.0], no iteration flushes, and the trailing
    [if not first] puts the whole input out as one point.  Every operation of
    this run is exact in binary64. *)
Theorem compress_limit_zero_one_point :
  exists v,
    Compress.compress Compress.round2_even [5%Q] 0 None None = Ok [(1, v)] /\
    (v == 5)%Q /\
    0 < Z.of_nat (length [5%Q]) /\
    ~ (Z.of_nat (length [(1, v)]) <= 0).
Proof.
  eexists. split; [vm_compute; reflexivity|].
  split; [reflexivity|]. split; [reflexivity|]. simpl. lia.
Qed.

(** ** Streaming compressor: one call *)

Section ZipperSteps.

Import Zipper.

Lemma py_div_ok (a b : Q) : ~ (b == 0)%Q -> py_div a b = Ok (a / b)%Q.
Proof.
  intros Hb. unfold py_div. destruct (Qeq_bool b 0) eqn:E; [|reflexivity].
  apply Qeq_bool_iff in E. contradiction.
Qed.

Lemma add_point_full (z : GraphZipper) (v : pyobj) :
  base_size z < point_order z + 1 ->
  add_point z v = (Raise RuntimeError, set_point_order z (point_order z + 1)).
Proof.
  intros H. unfold add_point. cbn [set_point_order point_order base_size].
  destruct (point_order z + 1 >? base_size z) eqn:E; [reflexivity|].
  rewrite Z.gtb_ltb in E. apply Z.ltb_ge in E. lia.
Qed.

Lemma add_point_plain (z : GraphZipper) (v : pyobj) :
  point_order z + 1 <= base_size z ->
  (compression_ratio z <= 1)%Q ->
  add_point z v
    = (Ok tt, append_graph (set_point_order z (point_order z + 1))
                           (point_order z + 1, coerce v)).
Proof.
  intros Hp Hr. unfold add_point.
  cbn [set_point_order point_order base_size compression_ratio].
  destruct (point_order z + 1 >? base_size z) eqn:E.
  { rewrite Z.gtb_ltb in E. apply Z.ltb_lt in E. lia. }
  apply Qle_bool_iff in Hr. rewrite Hr. reflexivity.
Qed.

Lemma add_point_accumulate (z : GraphZipper) (v : pyobj) :
  point_order z + 1 <= base_size z ->
  (1 < compression_ratio z)%Q ->
  (cached_ratios_sum z + 1 < compression_ratio z)%Q ->
  add_point z v
    = (Ok tt, set_window (set_point_order z (point_order z + 1))
                (cached_ratios_sum z + 1)%Q
                (ratio_value_points z ++ [(1%Q, coerce v)])).
Proof.
  intros Hp Hr Hc. unfold add_point.
  cbn [set_point_order point_order base_size compression_ratio
       cached_ratios_sum ratio_value_points].
  destruct (point_order z + 1 >? base_size z) eqn:E.
  { rewrite Z.gtb_ltb in E. apply Z.ltb_lt in E. lia. }
  apply Qle_bool_gt in Hr. rewrite Hr.
  apply Qltb_lt in Hc. rewrite Hc. reflexivity.
Qed.

Lemma add_point_flush (z : GraphZipper) (v : pyobj) :
  point_order z + 1 <= base_size z ->
  (1 < compression_ratio z)%Q ->
  (compression_ratio z <= cached_ratios_sum z + 1)%Q ->
  let r := compression_ratio z in
  let rest := (r - cached_ratios_sum z)%Q in
  let pending := ratio_value_points z ++ [(rest, coerce v)] in
  add_point z v
    = (Ok tt,
       {| base_size := base_size z;
          zipped_size := zipped_size z;
          compression_ratio := r;
          point_order := point_order z + 1;
          cached_ratios_sum := (1 - rest)%Q;
          ratio_value_points := [((1 - rest)%Q, coerce v)];
          zipped_graph :=
            zipped_graph z ++
            [(flushed_position (base_size z) r (point_order z + 1),
              (py_sum (map (fun p => (fst p * snd p)%Q) pending) / r)%Q)] |}).
Proof.
  intros Hp Hr Hc r rest pending. unfold add_point.
  cbn [set_point_order point_order base_size compression_ratio
       cached_ratios_sum ratio_value_points].
  destruct (point_order z + 1 >? base_size z) eqn:E.
  { rewrite Z.gtb_ltb in E. apply Z.ltb_lt in E. lia. }
  pose proof Hr as Hr'. apply Qle_bool_gt in Hr'. rewrite Hr'.
  apply Qltb_ge in Hc. rewrite Hc.
  unfold get_zipped_point.
  cbn [set_window set_point_order point_order base_size compression_ratio
       cached_ratios_sum ratio_value_points].
  rewrite py_div_ok by (intros H0; rewrite H0 in Hr; discriminate Hr).
  cbn [rbind append_graph set_window point_order base_size compression_ratio
       cached_ratios_sum ratio_value_points zipped_graph zipped_size].
  unfold flushed_position. fold r.
  assert (Hint : py_int (r / 2) = Qfloor (r / 2)).
  { apply py_int_floor. apply Qle_shift_div_l; [reflexivity|].
    rewrite Qmult_0_l. apply Qlt_le_weak.
    eapply Qlt_trans; [|exact Hr]. reflexivity. }
  rewrite Hint. reflexivity.
Qed.

(** [sum] adds from the left, starting from [0]; up to equality of
    rationals that is the sum of the terms. *)
Lemma py_sum_terms (xs : list Q) : (py_sum xs == foldr Qplus 0 xs)%Q.
Proof.
  unfold py_sum.
  assert (H : forall acc, (fold_left Qplus xs acc == acc + foldr Qplus 0 xs)%Q).
  { induction xs as [|x xs IH]; intros acc; cbn [fold_left foldr].
    - ring.
    - rewrite IH. ring. }
  rewrite H. ring.
Qed.

Lemma weighted_sum_terms (pending : list (Q * Q)) :
  (py_sum (map (fun wv => (fst wv * snd wv)%Q) pending)
   == foldr (fun wv acc => (fst wv * snd wv + acc)%Q) 0 pending)%Q.
Proof.
  rewrite py_sum_terms.
  induction pending as [|wv pending IH]; cbn [map foldr]; [reflexivity|].
  rewrite IH. reflexivity.
Qed.

(** C3: when an instance with [compression_ratio > 1] flushes (the window
    is full: [cached_ratios_sum + 1 >= compression_ratio]), the call succeeds
    and appends one point.  Its position is 1 if
    [point_order - compression_ratio <= 1]; else [base_size] if
    [point_order = base_size]; else
    [point_order - floor(compression_ratio / 2)], where [point_order] is the
    incremented counter.  Its value is the sum of weight times value over
    the pending contributions, the current value with weight
    [compression_ratio - cached_ratios_sum] included, divided by
    [compression_ratio]: the sum as Python's [sum] adds it up, which is
    [w1 * v1 + (w2 * v2 + ... + 0)] as a number. *)
Theorem flushed_point (z : GraphZipper) (v : pyobj) :
  point_order z + 1 <= base_size z ->
  (1 < compression_ratio z)%Q ->
  (compression_ratio z <= cached_ratios_sum z + 1)%Q ->
  let r := compression_ratio z in
  let p := point_order z + 1 in
  let pending := ratio_value_points z ++ [((r - cached_ratios_sum z)%Q, coerce v)] in
  exists order value,
    fst (add_point z v) = Ok tt /\
    get_zipped_graph (snd (add_point z v))
      = get_zipped_graph z ++ [(order, value)] /\
    ((inject_Z p - r <= 1)%Q -> order = 1) /\
    (~ (inject_Z p - r <= 1)%Q -> p = base_size z -> order = base_size z) /\
    (~ (inject_Z p - r <= 1)%Q -> p <> base_size z ->
     order = p - Qfloor (r / 2)) /\
    value = (fold_left Qplus (map (fun wv => (fst wv * snd wv)%Q) pending) 0
             / r)%Q /\
    (value * r
     == foldr (fun wv acc => (fst wv * snd wv + acc)%Q) 0 pending)%Q.
Proof.
  intros Hp Hr Hc r p pending.
  rewrite (add_point_flush z v Hp Hr Hc). fold r p pending.
  eexists _, _. split; [reflexivity|]. split; [reflexivity|].
  assert (Hvalue :
            (py_sum (map (fun wv => (fst wv * snd wv)%Q) pending) / r * r
             == foldr (fun wv acc => (fst wv * snd wv + acc)%Q) 0 pending)%Q).
  { rewrite <- weighted_sum_terms. field.
    intros H0. fold r in Hr. rewrite H0 in Hr. discriminate Hr. }
  unfold flushed_position.
  destruct (Qle_bool (inject_Z p - r) 1) eqn:E.
  - apply Qle_bool_iff in E.
    split; [reflexivity|]. split; [contradiction|].
    split; [contradiction|]. split; [reflexivity|exact Hvalue].
  - apply Qle_bool_gt in E.
    split; [intros H; exfalso; exact (Qlt_not_le _ _ E H)|].
    destruct (p =? base_size z) eqn:Eb.
    + apply Z.eqb_eq in Eb.
      split; [reflexivity|]. split; [contradiction|].
      split; [reflexivity|exact Hvalue].
    + apply Z.eqb_neq in Eb.
      split; [contradiction|]. split; [reflexivity|].
      split; [reflexivity|exact Hvalue].
Qed.

Lemma flushed_point_witness :
  point_order zipper_3_2_fed_once + 1 <= base_size zipper_3_2_fed_once /\
  (1 < compression_ratio zipper_3_2_fed_once)%Q /\
  (compression_ratio zipper_3_2_fed_once
   <= cached_ratios_sum zipper_3_2_fed_once + 1)%Q /\
  exists value,
    get_zipped_graph (snd (add_point zipper_3_2_fed_once (PyNum 6)))
      = [(1, value)] /\
    (value == 14 # 3)%Q.
Proof.
  assert (Hp : point_order zipper_3_2_fed_once + 1
               <= base_size zipper_3_2_fed_once) by (simpl; lia).
  assert (Hr : (1 < compression_ratio zipper_3_2_fed_once)%Q) by reflexivity.
  assert (Hc : (compression_ratio zipper_3_2_fed_once
                <= cached_ratios_sum zipper_3_2_fed_once + 1)%Q)
    by discriminate.
  split; [exact Hp|]. split; [exact Hr|]. split; [exact Hc|].
  destruct (flushed_point zipper_3_2_fed_once (PyNum 6) Hp Hr Hc)
    as (order & value & _ & Hg & H1 & _ & _ & _ & Hv).
  exists value. split.
  - rewrite Hg. rewrite H1 by discriminate. reflexivity.
  - assert (H : (value == value * (3 # 2) / (3 # 2))%Q) by (field; discriminate).
    rewrite H. cbv zeta in Hv. cbn [compression_ratio zipper_3_2_fed_once] in Hv.
    rewrite Hv. reflexivity.
Defined.

End ZipperSteps.

(** ** Streaming compressor: sequences of calls *)

Section ZipperRuns.

Import Zipper.

Lemma add_point_ok (z : GraphZipper) (v : pyobj) :
  point_order z + 1 <= base_size z -> fst (add_point z v) = Ok tt.
Proof.
  intros Hp.
  destruct (Qlt_le_dec 1 (compression_ratio z)) as [Hr|Hr].
  - destruct (Qlt_le_dec (cached_ratios_sum z + 1) (compression_ratio z))
      as [Hc|Hc].
    + rewrite add_point_accumulate by assumption. reflexivity.
    + rewrite (add_point_flush z v Hp Hr Hc). reflexivity.
  - rewrite add_point_plain by assumption. reflexivity.
Qed.

Lemma add_point_frame (z : GraphZipper) (v : pyobj) :
  base_size (snd (add_point z v)) = base_size z /\
  zipped_size (snd (add_point z v)) = zipped_size z /\
  compression_ratio (snd (add_point z v)) = compression_ratio z /\
  point_order (snd (add_point z v)) = point_order z + 1.
Proof.
  destruct (Z.lt_ge_cases (base_size z) (point_order z + 1)) as [Hp|Hp].
  { rewrite add_point_full by exact Hp. repeat split. }
  destruct (Qlt_le_dec 1 (compression_ratio z)) as [Hr|Hr].
  - destruct (Qlt_le_dec (cached_ratios_sum z + 1) (compression_ratio z))
      as [Hc|Hc].
    + rewrite add_point_accumulate by assumption. repeat split.
    + rewrite (add_point_flush z v Hp Hr Hc). repeat split.
  - rewrite add_point_plain by assumption. repeat split.
Qed.

Lemma feed_frame (vs : list pyobj) :
  forall z : GraphZipper,
    base_size (feed z vs) = base_size z /\
    zipped_size (feed z vs) = zipped_size z /\
    compression_ratio (feed z vs) = compression_ratio z /\
    point_order (feed z vs) = point_order z + Z.of_nat (length vs).
Proof.
  induction vs as [|v vs IH]; intros z; cbn [feed length].
  - rewrite Z.add_0_r. repeat split.
  - destruct (IH (snd (add_point z v))) as (Hb & Hz & Hr & Hp).
    destruct (add_point_frame z v) as (Hb' & Hz' & Hr' & Hp').
    rewrite Hb, Hz, Hr, Hp, Hb', Hz', Hr', Hp'. repeat split. lia.
Qed.

Lemma outcomes_ok (vs : list pyobj) :
  forall z : GraphZipper,
    point_order z + Z.of_nat (length vs) <= base_size z ->
    Forall (eq (Ok tt)) (outcomes z vs).
Proof.
  induction vs as [|v vs IH]; intros z Hp; cbn [outcomes]; [constructor|].
  cbn [length] in Hp. constructor.
  - symmetry. apply add_point_ok. lia.
  - apply IH. destruct (add_point_frame z v) as (Hb & _ & _ & Hp').
    rewrite Hb, Hp'. lia.
Qed.

(** Calls on a full instance: each raises, none touches the graph, each
    counts. *)
Lemma outcomes_full (vs : list pyobj) :
  forall z : GraphZipper,
    base_size z <= point_order z ->
    Forall (eq (Raise RuntimeError)) (outcomes z vs) /\
    zipped_graph (feed z vs) = zipped_graph z /\
    point_order (feed z vs) = point_order z + Z.of_nat (length vs).
Proof.
  induction vs as [|v vs IH]; intros z Hp; cbn [outcomes feed length].
  - rewrite Z.add_0_r. repeat split. constructor.
  - assert (Hfull : base_size z < point_order z + 1) by lia.
    rewrite (add_point_full z v Hfull). cbn [fst snd].
    destruct (IH (set_point_order z (point_order z + 1))) as (Ho & Hg & Hq).
    { simpl. lia. }
    split; [constructor; [reflexivity|exact Ho]|].
    split; [rewrite Hg; reflexivity|].
    rewrite Hq. simpl. lia.
Qed.

Lemma init_fields (base zipped : Z) (z0 : GraphZipper) :
  init base zipped = Ok z0 ->
  base_size z0 = base /\ zipped_size z0 = zipped /\ point_order z0 = 0 /\
  cached_ratios_sum z0 = 0%Q /\ zipped_graph z0 = [] /\
  ((zipped <= base /\ zipped <> 0 /\
    compression_ratio z0 = (inject_Z base / inject_Z zipped)%Q) \/
   (base < zipped /\ compression_ratio z0 = 1%Q)).
Proof.
  unfold init. intros H.
  destruct (base >=? zipped) eqn:E.
  - rewrite Z.geb_leb in E. apply Z.leb_le in E.
    unfold py_div in H.
    destruct (Qeq_bool (inject_Z zipped) 0) eqn:E0; [discriminate|].
    simpl in H. inversion H; subst z0. simpl.
    repeat split. left. repeat split; [exact E|].
    intros ->. discriminate.
  - rewrite Z.geb_leb in E. apply Z.leb_gt in E.
    simpl in H. inversion H; subst z0. simpl.
    repeat split. right. split; [exact E|reflexivity].
Qed.

(** C6: every [add_point] call increments [point_order] first, and raises
    the capacity error ([RuntimeError]) exactly when the incremented counter
    exceeds [base_size] (it succeeds otherwise); hence on a fresh instance
    the first [base_size] calls succeed and the next one raises. *)
Theorem add_point_capacity :
  (forall (z : GraphZipper) (v : pyobj),
     point_order (snd (add_point z v)) = point_order z + 1 /\
     (base_size z < point_order z + 1 ->
      fst (add_point z v) = Raise RuntimeError) /\
     (point_order z + 1 <= base_size z -> fst (add_point z v) = Ok tt)) /\
  (forall (base zipped : Z) (z0 : GraphZipper) (vs : list pyobj) (v : pyobj),
     init base zipped = Ok z0 -> Z.of_nat (length vs) = base ->
     Forall (eq (Ok tt)) (outcomes z0 vs) /\
     fst (add_point (feed z0 vs) v) = Raise RuntimeError).
Proof.
  split.
  - intros z v. split; [apply add_point_frame|]. split.
    + intros H. rewrite add_point_full by exact H. reflexivity.
    + apply add_point_ok.
  - intros base zipped z0 vs v Hinit Hlen.
    destruct (init_fields _ _ _ Hinit) as (Hb & _ & Hp & _).
    split.
    + apply outcomes_ok. lia.
    + destruct (feed_frame vs z0) as (Hb' & _ & _ & Hp').
      rewrite add_point_full; [reflexivity|]. lia.
Qed.

(** [GraphZipper(100, 25)]: a hundred calls succeed, the 101st raises. *)
Lemma add_point_capacity_witness :
  exists z0,
    init 100 25 = Ok z0 /\
    Z.of_nat (length (repeat (PyNum 1) 100)) = 100 /\
    Forall (eq (Ok tt)) (outcomes z0 (repeat (PyNum 1) 100)) /\
    fst (add_point (feed z0 (repeat (PyNum 1) 100)) (PyNum 1))
      = Raise RuntimeError.
Proof.
  eexists. split; [reflexivity|]. split; [reflexivity|].
  apply (proj2 add_point_capacity 100 25); reflexivity.
Defined.

(** C10: once [base_size] points have been fed, every further call raises
    the capacity error and leaves [zipped_graph] as it was, so
    [get_zipped_graph] still returns the output accumulated before; but each
    such call has incremented [point_order], which ends [base_size] plus the
    number of failed calls. *)
Theorem full_zipper_rejects (base zipped : Z) (z0 : GraphZipper)
  (vs extra : list pyobj) :
  init base zipped = Ok z0 -> Z.of_nat (length vs) = base ->
  point_order (feed z0 vs) = base_size (feed z0 vs) /\
  Forall (eq (Raise RuntimeError)) (outcomes (feed z0 vs) extra) /\
  get_zipped_graph (feed (feed z0 vs) extra) = get_zipped_graph (feed z0 vs) /\
  point_order (feed (feed z0 vs) extra) = base + Z.of_nat (length extra).
Proof.
  intros Hinit Hlen.
  destruct (init_fields _ _ _ Hinit) as (Hb & _ & Hp & _).
  destruct (feed_frame vs z0) as (Hb' & _ & _ & Hp').
  assert (Hfull : point_order (feed z0 vs) = base_size (feed z0 vs)) by lia.
  destruct (outcomes_full extra (feed z0 vs)) as (Ho & Hg & Hq); [lia|].
  split; [exact Hfull|]. split; [exact Ho|]. split; [exact Hg|].
  rewrite Hq. lia.
Qed.

Lemma full_zipper_rejects_witness :
  exists z0,
    init 3 2 = Ok z0 /\
    Z.of_nat (length [PyNum 4; PyNum 6; PyOther]) = 3 /\
    Forall (eq (Raise RuntimeError))
      (outcomes (feed z0 [PyNum 4; PyNum 6; PyOther]) [PyNum 1; PyNum 2]) /\
    get_zipped_graph (feed (feed z0 [PyNum 4; PyNum 6; PyOther])
                           [PyNum 1; PyNum 2])
      = get_zipped_graph (feed z0 [PyNum 4; PyNum 6; PyOther]) /\
    point_order (feed (feed z0 [PyNum 4; PyNum 6; PyOther])
                      [PyNum 1; PyNum 2]) = 5.
Proof.
  eexists. split; [reflexivity|]. split; [reflexivity|].
  destruct (full_zipper_rejects 3 2 _ [PyNum 4; PyNum 6; PyOther]
              [PyNum 1; PyNum 2] eq_refl eq_refl) as (_ & Ho & Hg & Hq).
  split; [exact Ho|]. split; [exact Hg|exact Hq].
Defined.

Lemma enumerate_values {A} (l : list A) :
  forall start, map snd (Compress.enumerate start l) = l.
Proof.
  induction l as [|x l IH]; intros start; simpl; [reflexivity|].
  rewrite IH. reflexivity.
Qed.

Lemma enumerate_positions {A} (l : list A) :
  forall start,
    map fst (Compress.enumerate start l) = seqZ start (Z.of_nat (length l)).
Proof.
  induction l as [|x l IH]; intros start; cbn [Compress.enumerate map length].
  - reflexivity.
  - rewrite seqZ_cons by lia. rewrite IH. simpl fst.
    f_equal. f_equal; lia.
Qed.

(** Without compression every value goes to the graph as it is, at the
    index of its call. *)
Lemma feed_plain (qs : list Q) :
  forall z : GraphZipper,
    (compression_ratio z <= 1)%Q ->
    point_order z + Z.of_nat (length qs) <= base_size z ->
    zipped_graph (feed z (map PyNum qs))
      = zipped_graph z ++ Compress.enumerate (point_order z + 1) qs.
Proof.
  induction qs as [|q qs IH]; intros z Hr Hp;
    cbn [map feed Compress.enumerate length] in *.
  - rewrite app_nil_r. reflexivity.
  - rewrite add_point_plain by (assumption || lia). cbn [snd].
    rewrite IH.
    + simpl. rewrite <- app_assoc. reflexivity.
    + exact Hr.
    + simpl. lia.
Qed.

(** C7: with [base_size <= zipped_size] the ratio is 1 and nothing is
    compressed: after [N = base_size] numbers, all accepted, the graph holds
    exactly those [N] values, unchanged and in order, at positions
    [1, ..., N]. *)
Theorem no_compression_below_zipped_size (base zipped : Z) (z0 : GraphZipper)
  (qs : list Q) :
  init base zipped = Ok z0 -> base <= zipped ->
  Z.of_nat (length qs) = base ->
  (compression_ratio z0 == 1)%Q /\
  Forall (eq (Ok tt)) (outcomes z0 (map PyNum qs)) /\
  get_zipped_graph (feed z0 (map PyNum qs)) = Compress.enumerate 1 qs /\
  length (get_zipped_graph (feed z0 (map PyNum qs))) = length qs /\
  map fst (get_zipped_graph (feed z0 (map PyNum qs))) = seqZ 1 base /\
  map snd (get_zipped_graph (feed z0 (map PyNum qs))) = qs.
Proof.
  intros Hinit Hle Hlen.
  destruct (init_fields _ _ _ Hinit) as (Hb & _ & Hp & _ & Hg & Hr).
  assert (Hratio : (compression_ratio z0 == 1)%Q).
  { destruct Hr as [(Hzb & Hz0 & ->)|(_ & ->)]; [|reflexivity].
    assert (zipped = base) by lia. subst zipped.
    field. intros H. unfold Qeq in H. simpl in H. lia. }
  assert (Hgraph : get_zipped_graph (feed z0 (map PyNum qs))
                   = Compress.enumerate 1 qs).
  { unfold get_zipped_graph. rewrite feed_plain.
    - rewrite Hg, Hp. reflexivity.
    - rewrite Hratio. apply Qle_refl.
    - lia. }
  split; [exact Hratio|]. split.
  { apply outcomes_ok. rewrite length_map. lia. }
  split; [exact Hgraph|]. rewrite Hgraph. split.
  { rewrite <- (length_map snd), enumerate_values. reflexivity. }
  split; [rewrite enumerate_positions, Hlen; reflexivity|].
  apply enumerate_values.
Qed.

Lemma no_compression_below_zipped_size_witness :
  exists z0,
    init 3 3 = Ok z0 /\ 3 <= 3 /\
    Z.of_nat (length [5; 7 # 2; 0]%Q) = 3 /\
    (compression_ratio z0 == 1)%Q /\
    get_zipped_graph (feed z0 (map PyNum [5; 7 # 2; 0]%Q))
      = [(1, 5%Q); (2, 7 # 2); (3, 0%Q)].
Proof.
  eexists. split; [reflexivity|]. split; [lia|]. split; [reflexivity|].
  destruct (no_compression_below_zipped_size 3 3 _ [5; 7 # 2; 0]%Q
              eq_refl ltac:(lia) eq_refl) as (Hr & _ & Hg & _).
  split; [exact Hr|exact Hg].
Defined.

End ZipperRuns.


(** A zero [zipped_size] does not construct. *)
Example zero_zipped_size_raises :
  Zipper.init 4 0 = Raise ZeroDivisionError.
Proof. reflexivity. Qed.

(** The sample instance is what the constructor and one call produce. *)
Example zipper_3_2_fed_once_reached :
  exists z0,
    Zipper.init 3 2 = Ok z0 /\
    snd (Zipper.add_point z0 (Zipper.PyNum 4)) = Zipper.zipper_3_2_fed_once.
Proof. eexists. split; reflexivity. Qed.

(** The position cases are tried in order: the last point of
    [GraphZipper(2, 1)] is both near the start and the last one, and lands
    at position 1. *)
Example first_position_case_wins :
  exists z0,
    Zipper.init 2 1 = Ok z0 /\
    map fst (Zipper.get_zipped_graph
               (Zipper.feed z0 [Zipper.PyNum 4; Zipper.PyNum 6])) = [1].
Proof. eexists. split; reflexivity. Qed.

(** ** Sample runs from the specification *)

Example mean_2_4_6 :
  exists r, fst (Stats.mean 1%positive {[1%positive := [2; 4; 6]%Q]}) = Ok r /\
            (r == 4)%Q.
Proof. eexists. split; [vm_compute; reflexivity|reflexivity]. Qed.

Example median_1_2_3_4 :
  exists r, fst (Stats.median 1%positive {[1%positive := [1; 2; 3; 4]%Q]}) = Ok r /\
            (r == 5 # 2)%Q.
Proof. eexists. split; [vm_compute; reflexivity|reflexivity]. Qed.

Example median_1_3_5 :
  fst (Stats.median 1%positive {[1%positive := [1; 3; 5]%Q]}) = Ok 3%Q.
Proof. vm_compute. reflexivity. Qed.

Example compress_within_limit :
  exists out,
    Compress.compress Compress.round2_even [1 # 3; 0; 5 # 2]%Q 3 None None
      = Ok out /\
    map fst out = [1; 2; 3] /\
    Forall2 Qeq (map snd out) [33 # 100; 0; 5 # 2]%Q.
Proof.
  eexists. split; [vm_compute; reflexivity|]. split; [reflexivity|].
  repeat constructor.
Qed.

Example zipper_100_25 :
  exists z0,
    Zipper.init 100 25 = Ok z0 /\
    length (Zipper.get_zipped_graph
              (Zipper.feed z0 (repeat (Zipper.PyNum 1) 100))) = 25%nat.
Proof. eexists. split; [reflexivity|]. vm_compute. reflexivity. Qed.

(** * Further properties *)

(** ** Statistics: ranks at and beyond the ends *)


Lemma getitem_from_end {A} (l : list A) (i : Z) :
  - Z.of_nat (length l) <= i < 0 ->
  getitem l i = getitem l (i + Z.of_nat (length l)).
Proof.
  intros Hi. unfold getitem.
  destruct (i <? 0) eqn:Hneg; [|apply Z.ltb_ge in Hneg; lia].
  destruct (i + Z.of_nat (length l) <? 0) eqn:Hneg';
    [apply Z.ltb_lt in Hneg'; lia|reflexivity].
Qed.

Lemma insert_sorted_least (x : Q) (l : list Q) :
  Forall (Qle x) l -> insert_sorted x l = x :: l.
Proof.
  intros Hx. destruct l as [|y l]; [reflexivity|]. simpl.
  inversion Hx as [|? ? Hy _]; subst.
  apply Qltb_ge in Hy. rewrite Hy. reflexivity.
Qed.

(** Sorting a sorted list changes nothing. *)
Lemma sorted_idem (l : list Q) : StronglySorted Qle l -> sorted l = l.
Proof.
  induction 1 as [|x l Hl IH Hx]; simpl; [reflexivity|].
  rewrite IH. apply insert_sorted_least. exact Hx.
Qed.

Lemma sorted_lookup_le (l : list Q) :
  StronglySorted Qle l ->
  forall (i j : nat) (a b : Q),
    l !! i = Some a -> l !! j = Some b -> (i <= j)%nat -> (a <= b)%Q.
Proof.
  induction 1 as [|x l Hl IH Hx]; intros i j a b Hi Hj Hij.
  - rewrite lookup_nil in Hi. discriminate.
  - destruct i as [|i], j as [|j]; simpl in Hi, Hj.
    + inversion Hi; inversion Hj; subst. apply Qle_refl.
    + inversion Hi; subst. rewrite Forall_forall in Hx. apply Hx.
      eapply list_elem_of_lookup_2. exact Hj.
    + lia.
    + eapply IH; [exact Hi|exact Hj|lia].
Qed.

(** What [percentile] returns on a non-empty list, in terms of the sorted
    values. *)
Lemma percentile_run (values : loc) (percent : Q) (h : heap) :
  h !!! values <> [] ->
  let s := sorted (h !!! values) in
  let k := (inject_Z (Z.of_nat (length (h !!! values)) - 1) * percent)%Q in
  fst (Stats.percentile values percent h) =
    if Qfloor k =? Qceiling k
    then rbind (getitem s (py_int k)) (fun x => Ok (Some x))
    else rbind (getitem s (Qfloor k)) (fun a =>
         rbind (getitem s (Qceiling k)) (fun b =>
         Ok (Some (a * (inject_Z (Qceiling k) - k)
                   + b * (k - inject_Z (Qfloor k)))%Q))).
Proof.
  intros Hne s k. unfold Stats.percentile, bind, read, write, lift, ret.
  destruct (h !!! values) as [|v vs] eqn:Hvs; [congruence|].
  cbn [is_nil]. cbv beta iota. rewrite lookup_total_insert_eq.
  rewrite sorted_length. fold s. fold k.
  destruct (Qfloor k =? Qceiling k).
  - destruct (getitem s (py_int k)); reflexivity.
  - destruct (getitem s (Qfloor k)); [|reflexivity].
    destruct (getitem s (Qceiling k)); reflexivity.
Qed.

Lemma percentile_at_integer_rank (values : loc) (percent : Q) (h : heap) (i : Z) :
  h !!! values <> [] -> 0 <= i ->
  (inject_Z (Z.of_nat (length (h !!! values)) - 1) * percent == inject_Z i)%Q ->
  fst (Stats.percentile values percent h)
    = rbind (getitem (sorted (h !!! values)) i) (fun x => Ok (Some x)).
Proof.
  intros Hne Hi Hk. rewrite percentile_run by exact Hne. cbv zeta.
  assert (Hf : Qfloor (inject_Z (Z.of_nat (length (h !!! values)) - 1)
                       * percent) = i)
    by (rewrite Hk; apply Qfloor_Z).
  assert (Hc : Qceiling (inject_Z (Z.of_nat (length (h !!! values)) - 1)
                         * percent) = i)
    by (rewrite Hk; apply Qceiling_Z).
  rewrite py_int_floor.
  - rewrite Hf, Hc, Z.eqb_refl. reflexivity.
  - rewrite Hk. change 0%Q with (inject_Z 0). rewrite <- Zle_Qle. exact Hi.
Qed.

(** X1: on a non-empty list [percentile(values, 0)] is the smallest value
    and [percentile(values, 1)] the largest: both are elements of the list
    and bound every element. *)
Theorem percentile_extremes (values : loc) (h : heap) :
  h !!! values <> [] ->
  exists lo hi,
    fst (Stats.percentile values 0 h) = Ok (Some lo) /\
    fst (Stats.percentile values 1 h) = Ok (Some hi) /\
    lo ∈ h !!! values /\ hi ∈ h !!! values /\
    Forall (fun x => (lo <= x)%Q /\ (x <= hi)%Q) (h !!! values).
Proof.
  intros Hne.
  set (s := sorted (h !!! values)).
  assert (Hlen : 1 <= Z.of_nat (length (h !!! values))).
  { destruct (h !!! values); [congruence|]. simpl length. lia. }
  assert (Hs : Z.of_nat (length s) = Z.of_nat (length (h !!! values))).
  { unfold s. rewrite sorted_length. reflexivity. }
  destruct (getitem_in_range s 0) as (lo & Hlo & Hglo); [lia|].
  destruct (getitem_in_range s (Z.of_nat (length (h !!! values)) - 1))
    as (hi & Hhi & Hghi); [lia|].
  exists lo, hi.
  split.
  { rewrite (percentile_at_integer_rank values 0 h 0 Hne); [|lia|ring].
    fold s. rewrite Hglo. reflexivity. }
  split.
  { rewrite (percentile_at_integer_rank values 1 h
               (Z.of_nat (length (h !!! values)) - 1) Hne); [|lia|ring].
    fold s. rewrite Hghi. reflexivity. }
  assert (Hin : forall x, x ∈ s -> x ∈ h !!! values).
  { intros x Hx. rewrite <- (sorted_perm (h !!! values)). exact Hx. }
  split; [apply Hin; eapply list_elem_of_lookup_2; exact Hlo|].
  split; [apply Hin; eapply list_elem_of_lookup_2; exact Hhi|].
  apply Forall_forall. intros x Hx.
  rewrite <- (sorted_perm (h !!! values)) in Hx. fold s in Hx.
  apply list_elem_of_lookup_1 in Hx. destruct Hx as [j Hj].
  pose proof (lookup_lt_Some _ _ _ Hj) as Hjlt.
  split.
  - eapply (sorted_lookup_le s (sorted_ordered _)); [exact Hlo|exact Hj|lia].
  - eapply (sorted_lookup_le s (sorted_ordered _)); [exact Hj|exact Hhi|lia].
Qed.

Lemma percentile_extremes_witness :
  ({[1%positive := [3; 1; 2]%Q]} : heap) !!! 1%positive <> [] /\
  exists lo hi,
    fst (Stats.percentile 1%positive 0 {[1%positive := [3; 1; 2]%Q]})
      = Ok (Some lo) /\
    fst (Stats.percentile 1%positive 1 {[1%positive := [3; 1; 2]%Q]})
      = Ok (Some hi) /\
    Forall (fun x => (lo <= x)%Q /\ (x <= hi)%Q) [3; 1; 2]%Q.
Proof.
  assert (Hne : ({[1%positive := [3; 1; 2]%Q]} : heap) !!! 1%positive <> [])
    by discriminate.
  split; [exact Hne|].
  destruct (percentile_extremes 1%positive {[1%positive := [3; 1; 2]%Q]} Hne)
    as (lo & hi & H0 & H1 & _ & _ & Hall).
  exists lo, hi. split; [exact H0|]. split; [exact H1|exact Hall].
Defined.

(** The value [percentile] returns depends on the list only through its
    sorted contents. *)
Lemma percentile_same_sorted (values : loc) (percent : Q) (h1 h2 : heap) :
  h1 !!! values <> [] -> h2 !!! values <> [] ->
  sorted (h1 !!! values) = sorted (h2 !!! values) ->
  fst (Stats.percentile values percent h1)
    = fst (Stats.percentile values percent h2).
Proof.
  intros Hne1 Hne2 Heq.
  rewrite (percentile_run values percent h1 Hne1).
  rewrite (percentile_run values percent h2 Hne2). cbv zeta.
  rewrite <- (sorted_length (h1 !!! values)).
  rewrite <- (sorted_length (h2 !!! values)).
  rewrite Heq. reflexivity.
Qed.

(** X2: a second [percentile] call with the same arguments returns what the
    first returned and leaves the list as the first left it (the list is
    already sorted). *)
Theorem percentile_twice (values : loc) (percent : Q) (h : heap) :
  Stats.percentile values percent (snd (Stats.percentile values percent h))
    = Stats.percentile values percent h.
Proof.
  destruct (h !!! values) as [|v vs] eqn:Hvs.
  - assert (Hnone : Stats.percentile values percent h = (Ok None, h)).
    { unfold Stats.percentile, bind, read, ret. rewrite Hvs. reflexivity. }
    rewrite Hnone. cbn [snd]. exact Hnone.
  - assert (Hne : h !!! values <> []) by (rewrite Hvs; discriminate).
    rewrite (percentile_store values percent h Hne).
    set (s := sorted (h !!! values)).
    assert (Hs : (<[values := s]> h : heap) !!! values = s)
      by apply lookup_total_insert_eq.
    assert (Hss : sorted s = s) by (apply sorted_idem, sorted_ordered).
    assert (Hne' : (<[values := s]> h : heap) !!! values <> []).
    { rewrite Hs. intros H. apply sorted_nil_inv in H. contradiction. }
    rewrite (surjective_pairing (Stats.percentile values percent _)).
    rewrite (surjective_pairing (Stats.percentile values percent h)).
    f_equal.
    + apply percentile_same_sorted; [exact Hne'|exact Hne|].
      rewrite Hs. exact Hss.
    + rewrite (percentile_store values percent _ Hne').
      rewrite (percentile_store values percent h Hne).
      rewrite Hs, Hss. apply insert_insert_eq.
Qed.



(** X4: a slightly negative percent does not fail: when the rank lies
    strictly between -1 and 0, Python's negative index wraps around and the
    result interpolates between the largest value (index -1) and the
    smallest (index 0). *)
Theorem percentile_negative_rank_wraps (values : loc) (percent : Q) (h : heap) :
  h !!! values <> [] ->
  let k := (inject_Z (Z.of_nat (length (h !!! values)) - 1) * percent)%Q in
  (-1 < k)%Q -> (k < 0)%Q ->
  exists lo hi,
    sorted (h !!! values) !! 0%nat = Some lo /\
    last (sorted (h !!! values)) = Some hi /\
    fst (Stats.percentile values percent h)
      = Ok (Some (hi * (inject_Z 0 - k) + lo * (k - inject_Z (-1)))%Q).
Proof.
  intros Hne k Hlo Hhi.
  set (s := sorted (h !!! values)).
  assert (Hlen : 1 <= Z.of_nat (length s)).
  { unfold s. rewrite sorted_length.
    destruct (h !!! values); [congruence|]. simpl length. lia. }
  assert (Hf : Qfloor k = -1).
  { pose proof (Qfloor_le k) as H1. pose proof (Qlt_floor k) as H2.
    assert (Qfloor k < 0) by (rewrite Zlt_Qlt; change (inject_Z 0) with 0%Q; lra).
    assert (-1 < Qfloor k + 1)
      by (rewrite Zlt_Qlt; change (inject_Z (-1)) with (-1)%Q; lra).
    lia. }
  assert (Hc : Qceiling k = 0).
  { pose proof (Qle_ceiling k) as H1. pose proof (Qceiling_lt k) as H2.
    assert (-1 < Qceiling k)
      by (rewrite Zlt_Qlt; change (inject_Z (-1)) with (-1)%Q; lra).
    assert (Qceiling k - 1 < 0)
      by (rewrite Zlt_Qlt; change (inject_Z 0) with 0%Q; lra).
    lia. }
  destruct (getitem_in_range s 0) as (lo & Hlo0 & Hglo); [lia|].
  destruct (getitem_in_range s (-1 + Z.of_nat (length s)))
    as (hi & Hhi0 & Hghi); [lia|].
  exists lo, hi. split; [exact Hlo0|]. split.
  { rewrite last_lookup. rewrite <- Hhi0. f_equal. lia. }
  rewrite (percentile_run values percent h Hne). cbv zeta. fold k. fold s.
  rewrite Hf, Hc. simpl (-1 =? 0).
  rewrite (getitem_from_end s (-1)) by lia.
  rewrite Hghi, Hglo. reflexivity.
Qed.

Lemma percentile_negative_rank_wraps_witness :
  ({[1%positive := [1; 2; 3]%Q]} : heap) !!! 1%positive <> [] /\
  (-1 < inject_Z (3 - 1) * (-1 # 4))%Q /\
  (inject_Z (3 - 1) * (-1 # 4) < 0)%Q /\
  exists r,
    fst (Stats.percentile 1%positive (-1 # 4) {[1%positive := [1; 2; 3]%Q]})
      = Ok (Some r) /\ (r == 2)%Q.
Proof.
  assert (Hne : ({[1%positive := [1; 2; 3]%Q]} : heap) !!! 1%positive <> [])
    by discriminate.
  assert (H1 : (-1 < inject_Z (3 - 1) * (-1 # 4))%Q) by reflexivity.
  assert (H2 : (inject_Z (3 - 1) * (-1 # 4) < 0)%Q) by reflexivity.
  split; [exact Hne|]. split; [exact H1|]. split; [exact H2|].
  destruct (percentile_negative_rank_wraps 1%positive (-1 # 4)
              {[1%positive := [1; 2; 3]%Q]} Hne H1 H2)
    as (lo & hi & Hlo & Hhi & Hr).
  inversion Hlo; subst lo. inversion Hhi; subst hi.
  eexists. split; [exact Hr|]. reflexivity.
Defined.

(** ** Statistics: the median *)

Lemma half_facts (n : Z) :
  n = 2 * (n / 2) + n mod 2 /\ 0 <= n mod 2 < 2.
Proof.
  split; [apply Z.div_mod; lia | apply Z.mod_pos_bound; lia].
Qed.

Lemma median_run (values : loc) (h : heap) :
  h !!! values <> [] ->
  let s := sorted (h !!! values) in
  let size := Z.of_nat (length s) in
  fst (Stats.median values h) =
    if size mod 2 =? 1 then getitem s (size / 2)
    else rbind (getitem s (size / 2 - 1)) (fun a =>
         rbind (getitem s (size / 2)) (fun b => Ok ((a + b) / 2)%Q)).
Proof.
  intros Hne s size. unfold Stats.median, bind, read, lift, ret, raise.
  destruct (h !!! values) as [|v vs] eqn:Hvs; [congruence|].
  cbn [is_nil]. cbv zeta. fold s. fold size.
  destruct (size mod 2 =? 1); [reflexivity|].
  destruct (getitem s (size / 2 - 1)); [|reflexivity].
  destruct (getitem s (size / 2)); reflexivity.
Qed.

(** X5: on a non-empty list [median] always returns (no index is out of
    range), and what it returns is the middle of the sorted values: the
    sorted list splits into two halves of equal length around the result
    (odd count), or around the two values whose average it is (even
    count). *)
Theorem median_splits_sorted (values : loc) (h : heap) :
  h !!! values <> [] ->
  StronglySorted Qle (sorted (h !!! values)) /\
  Permutation (sorted (h !!! values)) (h !!! values) /\
  exists l1 l2 r,
    length l1 = length l2 /\
    fst (Stats.median values h) = Ok r /\
    (sorted (h !!! values) = l1 ++ r :: l2 \/
     exists a b, sorted (h !!! values) = l1 ++ a :: b :: l2 /\
                 r = ((a + b) / 2)%Q).
Proof.
  intros Hne. split; [apply sorted_ordered|]. split; [apply sorted_perm|].
  rewrite (median_run values h Hne). cbv zeta.
  set (s := sorted (h !!! values)).
  assert (Hlen : (1 <= length s)%nat).
  { unfold s. rewrite sorted_length.
    destruct (h !!! values); [congruence|]. simpl. lia. }
  destruct (half_facts (Z.of_nat (length s))) as [Hdiv Hmod].
  destruct (Z.of_nat (length s) mod 2 =? 1) eqn:Hodd.
  - apply Z.eqb_eq in Hodd.
    destruct (getitem_in_range s (Z.of_nat (length s) / 2))
      as (r & Hr & Hg); [lia|].
    exists (take (Z.to_nat (Z.of_nat (length s) / 2)) s),
           (drop (S (Z.to_nat (Z.of_nat (length s) / 2))) s), r.
    split; [rewrite length_take, length_drop; lia|].
    split; [exact Hg|]. left. symmetry. apply take_drop_middle. exact Hr.
  - apply Z.eqb_neq in Hodd.
    destruct (getitem_in_range s (Z.of_nat (length s) / 2 - 1))
      as (a & Ha & Hga); [lia|].
    destruct (getitem_in_range s (Z.of_nat (length s) / 2))
      as (b & Hb & Hgb); [lia|].
    exists (take (Z.to_nat (Z.of_nat (length s) / 2 - 1)) s),
           (drop (S (Z.to_nat (Z.of_nat (length s) / 2))) s),
           ((a + b) / 2)%Q.
    split; [rewrite length_take, length_drop; lia|].
    split; [rewrite Hga, Hgb; reflexivity|].
    right. exists a, b. split; [|reflexivity].
    rewrite <- (take_drop_middle s _ a Ha) at 1. f_equal. f_equal.
    replace (S (Z.to_nat (Z.of_nat (length s) / 2 - 1)))
      with (Z.to_nat (Z.of_nat (length s) / 2)) by lia.
    apply drop_S. exact Hb.
Qed.

Lemma median_splits_sorted_witness :
  ({[1%positive := [4; 1; 3; 2]%Q]} : heap) !!! 1%positive <> [] /\
  exists l1 l2 r,
    length l1 = length l2 /\
    fst (Stats.median 1%positive {[1%positive := [4; 1; 3; 2]%Q]}) = Ok r /\
    (sorted [4; 1; 3; 2]%Q = l1 ++ r :: l2 \/
     exists a b, sorted [4; 1; 3; 2]%Q = l1 ++ a :: b :: l2 /\
                 r = ((a + b) / 2)%Q).
Proof.
  assert (Hne : ({[1%positive := [4; 1; 3; 2]%Q]} : heap) !!! 1%positive <> [])
    by discriminate.
  split; [exact Hne|].
  destruct (median_splits_sorted 1%positive {[1%positive := [4; 1; 3; 2]%Q]}
              Hne) as (_ & _ & H).
  exact H.
Defined.

(** ** Atomic-action extractor: errors, columns and key order *)

Section AtomicMore.

Import Atomic.
Local Open Scope string_scope.

Lemma action_column_missing (a : string) (raw_data : list row) :
  Exists (fun r => atomic_actions r = None) raw_data ->
  action_column a raw_data = Raise KeyError.
Proof.
  induction raw_data as [|r rest IH]; intros Hex; [inversion Hex|].
  simpl. destruct (atomic_actions r) as [d|] eqn:Hd; [|reflexivity].
  rewrite IH; [reflexivity|].
  inversion Hex as [? ? H|? ? H]; subst; [congruence|exact H].
Qed.

Lemma action_column_error (a : string) (raw_data : list row) (e : exn) :
  action_column a raw_data = Raise e ->
  e = KeyError /\ Exists (fun r => atomic_actions r = None) raw_data.
Proof.
  induction raw_data as [|r rest IH]; simpl; [discriminate|].
  destruct (atomic_actions r) as [d|] eqn:Hd.
  - destruct (action_column a rest) as [col|e'] eqn:Hrest; simpl.
    + destruct (dict_get d a) as [[q|]|]; discriminate.
    + intros H. inversion H; subst e'.
      destruct (IH eq_refl) as [-> Hex]. split; [reflexivity|].
      apply Exists_cons_tl. exact Hex.
  - intros H. inversion H; subst. split; [reflexivity|].
    apply Exists_cons_hd. exact Hd.
Qed.

Lemma fill_actions_error (names : list string) (raw_data : list row) :
  forall acc e,
    fill_actions names raw_data acc = Raise e ->
    e = KeyError /\ names <> [] /\
    Exists (fun r => atomic_actions r = None) raw_data.
Proof.
  induction names as [|n names IH]; simpl; intros acc e H; [discriminate|].
  destruct (action_column n raw_data) as [col|e'] eqn:Hcol; simpl in H.
  - destruct (IH _ _ H) as (He & _ & Hex). repeat split; [exact He| |exact Hex].
    discriminate.
  - inversion H; subst e'. destruct (action_column_error _ _ _ Hcol) as [He Hex].
    repeat split; [exact He| |exact Hex]. discriminate.
Qed.

(** X7: [get_atomic_actions_data] raises nothing but [KeyError], and raises
    it exactly when there is at least one action name and some row has no
    ["atomic_actions"] key. *)
Theorem atomic_actions_data_key_error (raw_data : list row) :
  (forall e, get_atomic_actions_data raw_data = Raise e -> e = KeyError) /\
  (get_atomic_actions_data raw_data = Raise KeyError <->
   first_actions raw_data <> [] /\
   Exists (fun r => atomic_actions r = None) raw_data).
Proof.
  assert (Hraise : forall e, get_atomic_actions_data raw_data = Raise e ->
            e = KeyError /\ first_actions raw_data <> [] /\
            Exists (fun r => atomic_actions r = None) raw_data).
  { intros e H. unfold get_atomic_actions_data in H.
    destruct (fill_actions _ _ _) as [acc|e'] eqn:Hfill; simpl in H;
      [discriminate|].
    inversion H; subst e'. exact (fill_actions_error _ _ _ _ Hfill). }
  split; [intros e H; apply (Hraise e H)|]. split.
  - intros H. destruct (Hraise _ H) as (_ & Hn & Hex). split; assumption.
  - intros [Hn Hex]. unfold get_atomic_actions_data.
    destruct (first_actions raw_data) as [|a names]; [congruence|].
    simpl. rewrite (action_column_missing a raw_data Hex). reflexivity.
Qed.

(** X8: when every row is an error row or has no ["atomic_actions"] key
    (in particular on empty input), the result has the single key
    ["total"], holding the durations of the rows that are not errors. *)
Theorem atomic_actions_data_no_names (raw_data : list row) :
  Forall skipped raw_data ->
  get_atomic_actions_data raw_data
    = Ok [("total", map duration
                      (List.filter (fun r => negb (error r)) raw_data))].
Proof.
  intros Hall. unfold get_atomic_actions_data.
  rewrite <- (app_nil_r raw_data) at 1.
  rewrite first_actions_skip by exact Hall. reflexivity.
Qed.

Lemma atomic_actions_data_no_names_witness :
  Forall skipped [row_failed] /\
  get_atomic_actions_data [row_failed] = Ok [("total", [])].
Proof.
  assert (Hskip : Forall skipped [row_failed]).
  { constructor; [left; reflexivity | constructor]. }
  split; [exact Hskip|].
  exact (atomic_actions_data_no_names [row_failed] Hskip).
Defined.

Lemma atomic_actions_data_key_error_witness :
  first_actions [row_a1; row_no_key] <> [] /\
  Exists (fun r => atomic_actions r = None) [row_a1; row_no_key] /\
  get_atomic_actions_data [row_a1; row_no_key] = Raise KeyError.
Proof.
  assert (Hn : first_actions [row_a1; row_no_key] <> []) by discriminate.
  assert (Hex : Exists (fun r => atomic_actions r = None) [row_a1; row_no_key]).
  { apply Exists_cons_tl, Exists_cons_hd. reflexivity. }
  split; [exact Hn|]. split; [exact Hex|].
  apply (proj2 (atomic_actions_data_key_error [row_a1; row_no_key])).
  split; assumption.
Defined.

Lemma action_column_values (a : string) (raw_data : list row) (col : list Q) :
  action_column a raw_data = Ok col -> col = omap (action_value a) raw_data.
Proof.
  revert col. induction raw_data as [|r rest IH]; intros col H.
  - simpl in H. inversion H. reflexivity.
  - simpl in H.
    assert (Hcons : omap (action_value a) (r :: rest)
                    = match action_value a r with
                      | Some q => q :: omap (action_value a) rest
                      | None => omap (action_value a) rest
                      end) by reflexivity.
    rewrite Hcons. clear Hcons. unfold action_value at 1.
    destruct (atomic_actions r) as [d|]; [|discriminate].
    destruct (action_column a rest) as [col'|e]; simpl in H; [|discriminate].
    pose proof (IH col' eq_refl) as Hcol. subst col'.
    destruct (dict_get d a) as [[q|]|]; inversion H; reflexivity.
Qed.

Lemma fill_actions_other (names : list string) (raw_data : list row) :
  forall acc res a,
    fill_actions names raw_data acc = Ok res -> a ∉ names ->
    dict_get res a = dict_get acc a.
Proof.
  induction names as [|n names IH]; simpl; intros acc res a H Ha.
  - inversion H. reflexivity.
  - destruct (action_column n raw_data) as [col|e]; simpl in H; [|discriminate].
    rewrite (IH _ _ a H) by (intros Hin; apply Ha; right; exact Hin).
    apply dict_get_od_set_ne. intros ->. apply Ha. left.
Qed.

Lemma fill_actions_lookup (names : list string) (raw_data : list row) :
  forall acc res a,
    fill_actions names raw_data acc = Ok res -> a ∈ names ->
    exists col, action_column a raw_data = Ok col /\ dict_get res a = Some col.
Proof.
  induction names as [|n names IH]; simpl; intros acc res a H Ha.
  - inversion Ha.
  - destruct (action_column n raw_data) as [col|e] eqn:Hcol; simpl in H;
      [|discriminate].
    destruct (decide (a ∈ names)) as [Hin|Hnin].
    + exact (IH _ _ a H Hin).
    + apply elem_of_cons in Ha. destruct Ha as [->|Hin]; [|contradiction].
      exists col. split; [exact Hcol|].
      rewrite (fill_actions_other _ _ _ _ _ H Hnin).
      apply dict_get_od_set_eq.
Qed.

(** X9: in a returned result every action name other than ["total"] maps to
    that action's durations over all rows, error rows included, in row
    order, leaving out the rows where the action is absent or [None]. *)
Theorem atomic_actions_data_column (raw_data : list row)
  (res : list (string * list Q)) (a : string) :
  get_atomic_actions_data raw_data = Ok res ->
  a ∈ first_actions raw_data -> a <> "total" ->
  dict_get res a = Some (omap (action_value a) raw_data).
Proof.
  intros Hres Ha Hne. unfold get_atomic_actions_data in Hres.
  destruct (fill_actions _ _ _) as [acc|e] eqn:Hfill; simpl in Hres;
    [|discriminate].
  inversion Hres; subst res.
  rewrite dict_get_od_set_ne by congruence.
  destruct (fill_actions_lookup _ _ _ _ a Hfill Ha) as (col & Hcol & Hget).
  rewrite Hget. f_equal. apply action_column_values. exact Hcol.
Qed.

Lemma atomic_actions_data_column_witness :
  get_atomic_actions_data [row_failed; row_a1; row_a2]
    = Ok [("a", [1%Q; 3 # 2]); ("total", [2%Q; 3%Q])] /\
  "a" ∈ first_actions [row_failed; row_a1; row_a2] /\
  "a" <> "total" /\
  dict_get [("a", [1%Q; 3 # 2]); ("total", [2%Q; 3%Q])] "a"
    = Some (omap (action_value "a") [row_failed; row_a1; row_a2]).
Proof.
  assert (Hres : get_atomic_actions_data [row_failed; row_a1; row_a2]
                 = Ok [("a", [1%Q; 3 # 2]); ("total", [2%Q; 3%Q])])
    by reflexivity.
  assert (Ha : "a" ∈ first_actions [row_failed; row_a1; row_a2])
    by (simpl; left).
  assert (Hne : "a" <> "total") by discriminate.
  split; [exact Hres|]. split; [exact Ha|]. split; [exact Hne|].
  exact (atomic_actions_data_column _ _ "a" Hres Ha Hne).
Defined.

Lemma od_set_keys_old {V} (d : list (string * V)) (k : string) (v : V) :
  k ∈ map fst d -> map fst (od_set d k v) = map fst d.
Proof.
  induction d as [|[k' v'] d IH]; simpl; intros Hk; [inversion Hk|].
  destruct (String.eqb k' k) eqn:E; [reflexivity|]. simpl.
  apply String.eqb_neq in E. apply elem_of_cons in Hk.
  destruct Hk as [->|Hk]; [congruence|]. rewrite IH by exact Hk. reflexivity.
Qed.

Lemma od_set_keys_new {V} (d : list (string * V)) (k : string) (v : V) :
  k ∉ map fst d -> map fst (od_set d k v) = (map fst d ++ [k])%list.
Proof.
  induction d as [|[k' v'] d IH]; simpl; intros Hk; [reflexivity|].
  destruct (String.eqb k' k) eqn:E.
  - apply String.eqb_eq in E. subst k'. exfalso. apply Hk. left.
  - simpl. rewrite IH; [reflexivity|].
    intros Hin. apply Hk. right. exact Hin.
Qed.

Lemma fill_actions_key_order (names : list string) (raw_data : list row) :
  forall acc res,
    fill_actions names raw_data acc = Ok res ->
    NoDup (map fst acc ++ names)%list ->
    map fst res = (map fst acc ++ names)%list.
Proof.
  induction names as [|n names IH]; simpl; intros acc res H Hnd.
  - inversion H. rewrite app_nil_r. reflexivity.
  - destruct (action_column n raw_data) as [col|e]; simpl in H; [|discriminate].
    assert (Hn : n ∉ map fst acc).
    { intros Hin. apply NoDup_app in Hnd. destruct Hnd as (_ & Hdis & _).
      apply (Hdis n Hin). left. }
    rewrite (IH _ _ H); rewrite od_set_keys_new by exact Hn.
    + rewrite <- app_assoc. reflexivity.
    + rewrite <- app_assoc. exact Hnd.
Qed.

(** X10: the keys of a returned result are the action names in the order
    the first good row lists them, followed by ["total"]; if ["total"] is
    itself an action name it keeps its place and no key is added. *)
Theorem atomic_actions_data_key_order (raw_data : list row)
  (res : list (string * list Q)) :
  get_atomic_actions_data raw_data = Ok res ->
  NoDup (first_actions raw_data) ->
  ("total" ∉ first_actions raw_data ->
   map fst res = (first_actions raw_data ++ ["total"])%list) /\
  ("total" ∈ first_actions raw_data ->
   map fst res = first_actions raw_data).
Proof.
  intros Hres Hnd. unfold get_atomic_actions_data in Hres.
  destruct (fill_actions _ _ _) as [acc|e] eqn:Hfill; simpl in Hres;
    [|discriminate].
  inversion Hres; subst res.
  assert (Hkeys : map fst acc = first_actions raw_data).
  { rewrite (fill_actions_key_order _ _ _ _ Hfill); [reflexivity|exact Hnd]. }
  split; intros Ht.
  - rewrite od_set_keys_new; rewrite Hkeys; [reflexivity|exact Ht].
  - rewrite od_set_keys_old; rewrite Hkeys; [reflexivity|exact Ht].
Qed.

Lemma atomic_actions_data_key_order_witness :
  get_atomic_actions_data [row_failed; row_a1; row_a2]
    = Ok [("a", [1%Q; 3 # 2]); ("total", [2%Q; 3%Q])] /\
  NoDup (first_actions [row_failed; row_a1; row_a2]) /\
  ("total" ∉ first_actions [row_failed; row_a1; row_a2]) /\
  map fst [("a", [1%Q; 3 # 2]); ("total", [2%Q; 3%Q])]
    = (first_actions [row_failed; row_a1; row_a2] ++ ["total"])%list.
Proof.
  assert (Hres : get_atomic_actions_data [row_failed; row_a1; row_a2]
                 = Ok [("a", [1%Q; 3 # 2]); ("total", [2%Q; 3%Q])])
    by reflexivity.
  assert (Hnd : NoDup (first_actions [row_failed; row_a1; row_a2])).
  { simpl. apply NoDup_singleton. }
  assert (Ht : "total" ∉ first_actions [row_failed; row_a1; row_a2]).
  { simpl. intros H. apply list_elem_of_singleton in H. discriminate H. }
  split; [exact Hres|]. split; [exact Hnd|]. split; [exact Ht|].
  exact (proj1 (atomic_actions_data_key_order _ _ Hres Hnd) Ht).
Defined.

End AtomicMore.

(** ** Batch compressor: errors, ends and values *)

Section CompressMore.

Import Compress.

Variable round2 : Q -> Q.

Lemma enumerate_length {A} (l : list A) :
  forall start, length (enumerate start l) = length l.
Proof.
  induction l as [|x l IH]; intros start; simpl; [reflexivity|].
  rewrite IH. reflexivity.
Qed.

Lemma compress_within_limit_run (data : list Q) (limit : Z)
  (merge : option (Q -> Q -> Q)) (normalize : option (Q -> Q)) :
  Z.of_nat (length data) <= limit ->
  compress round2 data limit merge normalize
    = Ok (map (fun iv => (fst iv,
                          default (default_normalize round2) normalize (snd iv)))
              (enumerate 1 data)).
Proof.
  intros Hle. unfold compress.
  destruct (Z.of_nat (length data) <=? limit) eqn:E;
    [reflexivity|apply Z.leb_gt in E; lia].
Qed.

(** X11: with [len(data) <= limit] nothing is merged and nothing raises:
    the result has one point per value, at positions [1 .. len(data)], each
    value passed through [normalize]. *)
Theorem compress_keeps_all_within_limit (data : list Q) (limit : Z)
  (merge : option (Q -> Q -> Q)) (normalize : option (Q -> Q)) :
  Z.of_nat (length data) <= limit ->
  exists out,
    compress round2 data limit merge normalize = Ok out /\
    length out = length data /\
    map fst out = seqZ 1 (Z.of_nat (length data)) /\
    map snd out = map (default (default_normalize round2) normalize) data.
Proof.
  intros Hle. rewrite (compress_within_limit_run data limit merge normalize Hle).
  eexists. split; [reflexivity|].
  split; [rewrite length_map; apply enumerate_length|].
  split.
  - rewrite map_map. cbn [fst].
    change (map (fun x : Z * Q => fst x) (enumerate 1 data))
      with (map fst (enumerate 1 data)).
    apply enumerate_positions.
  - rewrite map_map. cbn [snd].
    rewrite <- (enumerate_values data 1) at 2. rewrite map_map. reflexivity.
Qed.

(** X12: [compress] raises in one case only: empty data with a negative
    limit, where [limit / len(data)] divides by zero. *)
Theorem compress_raises_only_on_empty (data : list Q) (limit : Z)
  (merge : option (Q -> Q -> Q)) (normalize : option (Q -> Q)) :
  (forall e, compress round2 data limit merge normalize = Raise e ->
             e = ZeroDivisionError /\ data = [] /\ limit < 0) /\
  (data = [] -> limit < 0 ->
   compress round2 data limit merge normalize = Raise ZeroDivisionError).
Proof.
  split.
  - intros e H. unfold compress in H.
    destruct (Z.of_nat (length data) <=? limit) eqn:E; [discriminate|].
    apply Z.leb_gt in E. unfold py_div in H.
    destruct (Qeq_bool (inject_Z (Z.of_nat (length data))) 0) eqn:E0;
      simpl in H; [|discriminate].
    inversion H; subst e. apply Qeq_bool_iff in E0.
    unfold Qeq in E0. simpl in E0.
    assert (Hlen : length data = 0%nat) by lia.
    destruct data; [|discriminate]. simpl in E. repeat split. lia.
  - intros -> Hneg. unfold compress. simpl length.
    destruct (Z.of_nat 0 <=? limit) eqn:E; [apply Z.leb_le in E; simpl in E; lia|].
    reflexivity.
Qed.

End CompressMore.

Lemma compress_keeps_all_within_limit_witness :
  Z.of_nat (length [1 # 3; 0; 5 # 2]%Q) <= 5 /\
  exists out,
    Compress.compress Compress.round2_even [1 # 3; 0; 5 # 2]%Q 5 None None
      = Ok out /\
    map fst out = [1; 2; 3].
Proof.
  assert (Hle : Z.of_nat (length [1 # 3; 0; 5 # 2]%Q) <= 5) by (simpl; lia).
  split; [exact Hle|].
  destruct (compress_keeps_all_within_limit Compress.round2_even
              [1 # 3; 0; 5 # 2]%Q 5 None None Hle)
    as (out & Hout & _ & Hpos & _).
  exists out. split; [exact Hout|exact Hpos].
Defined.

Lemma compress_raises_only_on_empty_witness :
  ([] : list Q) = [] /\ -1 < 0 /\
  Compress.compress Compress.round2_even [] (-1) None None
    = Raise ZeroDivisionError.
Proof.
  split; [reflexivity|]. split; [lia|].
  apply (proj2 (compress_raises_only_on_empty Compress.round2_even [] (-1)
                  None None)); [reflexivity|lia].
Defined.

Section CompressRuns.

Import Compress.

Variable round2 : Q -> Q.

(** When the walk over a non-empty sequence ends on a flush, the point just
    flushed carries the last index. *)
Lemma loop_last_position (normalize : Q -> Q) (merge : Q -> Q -> Q)
  (factor : Q) (data : list Q) :
  data <> [] ->
  forall (i : Z) (st : loop_state),
    let st' := fold_left (loop_body normalize merge factor)
                         (enumerate (i + 1) data) st in
    first st' = true ->
    last (map fst (result_list st')) = Some (i + Z.of_nat (length data)).
Proof.
  induction data as [|v data IH]; intros Hne i st; [congruence|].
  cbn [enumerate fold_left length].
  destruct data as [|w data].
  - cbn [enumerate fold_left length]. unfold loop_body.
    destruct (Qltb 1 (store st + factor)); cbn [first result_list];
      [|discriminate].
    intros _. rewrite map_app. cbn [map fst]. rewrite last_snoc.
    f_equal; lia.
  - intros Hfirst.
    replace (i + Z.of_nat (S (length (w :: data))))
      with ((i + 1) + Z.of_nat (length (w :: data))) by lia.
    apply IH; [discriminate|exact Hfirst].
Qed.

(** X13: on non-empty data [compress] always returns at least one point,
    whatever the limit, and its last point is at position [len(data)]: the
    end of the input is never cut off. *)
Theorem compress_ends_at_last_index (data : list Q) (limit : Z)
  (merge : option (Q -> Q -> Q)) (normalize : option (Q -> Q)) :
  data <> [] ->
  exists out,
    compress round2 data limit merge normalize = Ok out /\
    last (map fst out) = Some (Z.of_nat (length data)).
Proof.
  intros Hne.
  destruct (Z.le_gt_cases (Z.of_nat (length data)) limit) as [Hle|Hgt].
  - rewrite (compress_within_limit_run round2 data limit merge normalize Hle).
    eexists. split; [reflexivity|].
    rewrite map_map. cbn [fst].
    change (map (fun x : Z * Q => fst x) (enumerate 1 data))
      with (map fst (enumerate 1 data)).
    rewrite enumerate_positions.
    assert (Hlen : 1 <= Z.of_nat (length data)).
    { destruct data; [congruence|]. simpl length. lia. }
    rewrite last_lookup, length_seqZ.
    rewrite lookup_seqZ. split; lia.
  - destruct (compress_below_length round2 data limit merge normalize Hne Hgt)
      as (Hout & _). cbv zeta in Hout.
    eexists. split; [exact Hout|].
    match goal with
    | |- context [first ?w] => set (st := w)
    end.
    destruct (first st) eqn:Efirst.
    + unfold st, walk in *.
      pose proof (loop_last_position
                    (default (default_normalize round2) normalize)
                    (default (default_merge
                                (default (default_normalize round2) normalize))
                             merge)
                    (inject_Z limit / inject_Z (Z.of_nat (length data)))
                    data Hne 0 loop_init) as Hlast.
      cbv zeta in Hlast. change (0 + 1) with 1 in Hlast.
      rewrite Z.add_0_l in Hlast. apply Hlast. exact Efirst.
    + rewrite map_app. cbn [map fst]. apply last_snoc.
Qed.

End CompressRuns.

Lemma compress_ends_at_last_index_witness :
  [4; 1; 3; 2; 5]%Q <> [] /\
  exists out,
    Compress.compress Compress.round2_even [4; 1; 3; 2; 5]%Q 2 None None
      = Ok out /\
    last (map fst out) = Some 5.
Proof.
  assert (Hne : [4; 1; 3; 2; 5]%Q <> []) by discriminate.
  split; [exact Hne|].
  exact (compress_ends_at_last_index Compress.round2_even [4; 1; 3; 2; 5]%Q 2
           None None Hne).
Defined.

Section CompressValues.

Import Compress.

Variable round2 : Q -> Q.

(** X15: with the default [merge], every value [compress] returns is an
    output of [normalize] (of the default rounding when [normalize] is not
    given either): no unnormalised number gets into the result. *)
Theorem compress_values_normalized (data : list Q) (limit : Z)
  (normalize : option (Q -> Q)) (out : list (Z * Q)) :
  compress round2 data limit None normalize = Ok out ->
  Forall (fun v => exists x,
            v = default (default_normalize round2) normalize x)
         (map snd out).
Proof.
  intros Hout.
  set (norm := default (default_normalize round2) normalize) in *.
  assert (Hloop : forall l i st,
            Forall (fun v => exists x, v = norm x) (map snd (result_list st)) ->
            (first st = false -> exists x, cur_value st = norm x) ->
            let st' := fold_left (loop_body norm (default_merge norm)
                                    (inject_Z limit
                                     / inject_Z (Z.of_nat (length data))))
                                 (enumerate i l) st in
            Forall (fun v => exists x, v = norm x)
                   (map snd (result_list st')) /\
            (first st' = false -> exists x, cur_value st' = norm x)).
  { induction l as [|v l IH]; intros i st Hres Hcur; [simpl; auto|].
    cbn [enumerate fold_left]. apply IH; unfold loop_body;
      destruct (Qltb 1 _); cbn [result_list first cur_value].
    - rewrite map_app. apply Forall_app. split; [exact Hres|].
      constructor; [|constructor]. cbn [snd].
      destruct (first st); [eexists; reflexivity|].
      unfold default_merge. eexists; reflexivity.
    - exact Hres.
    - discriminate.
    - intros _. destruct (first st); [eexists; reflexivity|].
      unfold default_merge. eexists; reflexivity. }
  unfold compress in Hout. fold norm in Hout. cbn [default] in Hout.
  destruct (Z.of_nat (length data) <=? limit).
  - inversion Hout; subst out. rewrite map_map. cbn [snd].
    apply Forall_forall. intros v Hv. apply list_elem_of_fmap in Hv.
    destruct Hv as (iv & -> & _). eexists; reflexivity.
  - destruct (py_div _ _) as [factor|e] eqn:Hdiv; simpl in Hout;
      [|discriminate].
    assert (Hfactor : factor = (inject_Z limit
                                / inject_Z (Z.of_nat (length data)))%Q).
    { unfold py_div in Hdiv. destruct (Qeq_bool _ 0); [discriminate|].
      inversion Hdiv. reflexivity. }
    subst factor.
    destruct (Hloop data 1 loop_init) as (Hres & Hcur);
      [constructor|discriminate|].
    inversion Hout; subst out. clear Hout. unfold walk in *.
    cbv zeta in Hres, Hcur.
    destruct (first _) eqn:Efirst; [exact Hres|].
    rewrite map_app. apply Forall_app. split; [exact Hres|].
    constructor; [|constructor]. cbn [snd]. apply Hcur. reflexivity.
Qed.

End CompressValues.

Lemma compress_values_normalized_witness :
  exists out,
    Compress.compress Compress.round2_even [1 # 3; 2 # 3; 1]%Q 2 None None
      = Ok out /\
    Forall (fun v => exists x,
              v = default (Compress.default_normalize Compress.round2_even)
                          None x)
           (map snd out).
Proof.
  eexists. split; [vm_compute; reflexivity|].
  apply (compress_values_normalized Compress.round2_even [1 # 3; 2 # 3; 1]%Q 2
           None).
  vm_compute. reflexivity.
Defined.

Section CompressPositions.

Import Compress.

Variable round2 : Q -> Q.

Lemma enumerate_increasing {A} (l : list A) :
  forall start,
    StronglySorted Z.lt (map fst (enumerate start l)) /\
    Forall (fun p => start <= p < start + Z.of_nat (length l))
           (map fst (enumerate start l)).
Proof.
  induction l as [|x l IH]; intros start; cbn [enumerate map fst length].
  - split; constructor.
  - destruct (IH (start + 1)) as [Hs Hb]. split.
    + constructor; [exact Hs|].
      eapply Forall_impl; [exact Hb|]. cbv beta. intros p Hp. lia.
    + constructor; [lia|].
      eapply Forall_impl; [exact Hb|]. cbv beta. intros p Hp. lia.
Qed.

(** X21: whatever the limit, the positions [compress] returns are strictly
    increasing and lie between 1 and [len(data)]; this holds whichever
    iterations put a point out. *)
Theorem compress_positions_increasing (data : list Q) (limit : Z)
  (merge : option (Q -> Q -> Q)) (normalize : option (Q -> Q))
  (out : list (Z * Q)) :
  compress round2 data limit merge normalize = Ok out ->
  StronglySorted Z.lt (map fst out) /\
  Forall (fun p => 1 <= p <= Z.of_nat (length data)) (map fst out).
Proof.
  intros Hout.
  destruct (Z.le_gt_cases (Z.of_nat (length data)) limit) as [Hle|Hgt].
  - rewrite (compress_within_limit_run round2 data limit merge normalize Hle)
      in Hout.
    inversion Hout; subst out. rewrite map_map. cbn [fst].
    change (map (fun x : Z * Q => fst x) (enumerate 1 data))
      with (map fst (enumerate 1 data)).
    destruct (enumerate_increasing data 1) as [Hs Hb].
    split; [exact Hs|].
    eapply Forall_impl; [exact Hb|]. cbv beta. intros p Hp. lia.
  - assert (Hne : data <> []).
    { intros ->. unfold compress in Hout. cbn [length] in Hout, Hgt.
      destruct (Z.of_nat 0 <=? limit) eqn:E; [apply Z.leb_le in E; lia|].
      discriminate Hout. }
    destruct (compress_below_length round2 data limit merge normalize Hne Hgt)
      as (Hrun & Hs & Hb & Hf).
    cbv zeta in Hrun, Hs, Hb, Hf. rewrite Hrun in Hout.
    inversion Hout; subst out. clear Hout.
    match goal with
    | |- context [first ?w] => set (st := w) in *
    end.
    assert (Hlen : 1 <= Z.of_nat (length data)).
    { destruct data; [congruence|]. simpl length. lia. }
    destruct (first st) eqn:Efirst.
    + split; [exact Hs|exact Hb].
    + specialize (Hf eq_refl). rewrite map_app. cbn [map fst]. split.
      * apply positions_snoc; assumption.
      * apply Forall_app. split; [exact Hb|].
        repeat constructor; lia.
Qed.

End CompressPositions.

Lemma compress_positions_increasing_witness :
  exists out,
    Compress.compress Compress.round2_even [4; 1; 3; 2; 5]%Q 2 None None
      = Ok out /\
    StronglySorted Z.lt (map fst out) /\
    Forall (fun p => 1 <= p <= 5) (map fst out).
Proof.
  eexists. split; [vm_compute; reflexivity|].
  apply (compress_positions_increasing Compress.round2_even
           [4; 1; 3; 2; 5]%Q 2 None None).
  vm_compute. reflexivity.
Defined.

(** ** Streaming compressor: construction and growth of the graph *)

Section ZipperMore.

Import Zipper.

(** What one call does to the graph: nothing, or one point at the end. *)
Lemma add_point_graph (z : GraphZipper) (v : pyobj) :
  zipped_graph (snd (add_point z v)) = zipped_graph z \/
  exists p, zipped_graph (snd (add_point z v)) = zipped_graph z ++ [p].
Proof.
  destruct (Z.lt_ge_cases (base_size z) (point_order z + 1)) as [Hp|Hp].
  { rewrite add_point_full by exact Hp. left. reflexivity. }
  destruct (Qlt_le_dec 1 (compression_ratio z)) as [Hr|Hr].
  - destruct (Qlt_le_dec (cached_ratios_sum z + 1) (compression_ratio z))
      as [Hc|Hc].
    + rewrite add_point_accumulate by assumption. left. reflexivity.
    + rewrite (add_point_flush z v Hp Hr Hc). right. eexists. reflexivity.
  - rewrite add_point_plain by assumption. right. eexists. reflexivity.
Qed.

(** X16: the graph is append-only.  Whatever the instance and the values,
    and whether the calls succeed or raise, what [get_zipped_graph]
    returned before a run of calls is a prefix of what it returns after,
    and each call adds at most one point. *)
Theorem zipped_graph_append_only (vs : list pyobj) (z : GraphZipper) :
  get_zipped_graph z `prefix_of` get_zipped_graph (feed z vs) /\
  (length (get_zipped_graph (feed z vs))
   <= length (get_zipped_graph z) + length vs)%nat.
Proof.
  unfold get_zipped_graph. revert z.
  induction vs as [|v vs IH]; intros z; cbn [feed length].
  - split; [reflexivity|lia].
  - destruct (IH (snd (add_point z v))) as [Hpre Hlen].
    destruct (add_point_graph z v) as [Heq|[p Heq]]; rewrite Heq in Hpre, Hlen.
    + split; [exact Hpre|lia].
    + split.
      * etransitivity; [|exact Hpre]. apply prefix_app_r. reflexivity.
      * rewrite length_app in Hlen. simpl in Hlen. lia.
Qed.

(** X17: the constructor raises only [ZeroDivisionError], and exactly for
    [zipped_size = 0] with [base_size >= 0]; for a positive [zipped_size]
    the ratio it stores is [max(1, base_size / zipped_size)], hence at
    least 1. *)
Theorem init_ratio (base zipped : Z) :
  (forall e, init base zipped = Raise e ->
             e = ZeroDivisionError /\ zipped = 0 /\ 0 <= base) /\
  (zipped = 0 -> 0 <= base -> init base zipped = Raise ZeroDivisionError) /\
  (0 < zipped ->
   exists z0, init base zipped = Ok z0 /\
     (1 <= compression_ratio z0)%Q /\
     (zipped <= base ->
      compression_ratio z0 = (inject_Z base / inject_Z zipped)%Q) /\
     (base < zipped -> compression_ratio z0 = 1%Q)).
Proof.
  split; [|split].
  - intros e H. unfold init in H.
    destruct (base >=? zipped) eqn:E; [|discriminate].
    rewrite Z.geb_leb in E. apply Z.leb_le in E. unfold py_div in H.
    destruct (Qeq_bool (inject_Z zipped) 0) eqn:E0; [|discriminate].
    simpl in H. inversion H; subst e. apply Qeq_bool_iff in E0.
    unfold Qeq in E0. simpl in E0. repeat split; lia.
  - intros -> Hb. unfold init.
    destruct (base >=? 0) eqn:E; [reflexivity|].
    rewrite Z.geb_leb in E. apply Z.leb_gt in E. lia.
  - intros Hz. unfold init.
    destruct (base >=? zipped) eqn:E; rewrite Z.geb_leb in E.
    + apply Z.leb_le in E. rewrite py_div_ok.
      * eexists. split; [reflexivity|]. cbn [compression_ratio].
        split; [|split; [reflexivity|lia]].
        apply Qle_shift_div_l.
        -- change 0%Q with (inject_Z 0). rewrite <- Zlt_Qlt. exact Hz.
        -- rewrite Qmult_1_l, <- Zle_Qle. exact E.
      * intros H. unfold Qeq in H. simpl in H. lia.
    + apply Z.leb_gt in E. eexists. split; [reflexivity|].
      cbn [compression_ratio].
      split; [apply Qle_refl|]. split; [lia|reflexivity].
Qed.

Lemma init_ratio_witness :
  0 < 25 /\
  exists z0, init 100 25 = Ok z0 /\ (1 <= compression_ratio z0)%Q.
Proof.
  split; [lia|].
  destruct (proj2 (proj2 (init_ratio 100 25)) ltac:(lia))
    as (z0 & Hz0 & Hr & _).
  exists z0. split; [exact Hz0|exact Hr].
Defined.

End ZipperMore.

Section ZipperStart.

Import Zipper.

Lemma add_point_first_point_inv (z : GraphZipper) (v : pyobj) :
  first_point_inv z -> first_point_inv (snd (add_point z v)).
Proof.
  intros [Hhead Hempty].
  destruct (zipped_graph z) as [|[q0 v0] rest0] eqn:Hg.
  - specialize (Hempty eq_refl).
    destruct (Z.lt_ge_cases (base_size z) (point_order z + 1)) as [Hp|Hp].
    { rewrite add_point_full by exact Hp. unfold first_point_inv. simpl.
      rewrite Hg. split; [discriminate|]. intros _. left. lia. }
    destruct Hempty as [Hdead|[Hplain Hcomp]]; [lia|].
    destruct (Qlt_le_dec 1 (compression_ratio z)) as [Hr|Hr].
    + destruct (Hcomp Hr) as [Hc Hcr].
      destruct (Qlt_le_dec (cached_ratios_sum z + 1) (compression_ratio z))
        as [Hacc|Hflush].
      * rewrite add_point_accumulate by assumption. unfold first_point_inv.
        simpl. rewrite Hg. split; [discriminate|]. intros _. right.
        split; [intros H; exfalso; lra|]. intros _.
        split; [rewrite inject_Z_succ; lra|exact Hacc].
      * rewrite (add_point_flush z v Hp Hr Hflush). unfold first_point_inv.
        simpl. rewrite Hg. simpl. split; [|discriminate].
        intros q v' rest H. inversion H; subst.
        unfold flushed_position.
        assert (E : Qle_bool (inject_Z (point_order z + 1)
                              - compression_ratio z) 1 = true).
        { apply Qle_bool_iff. rewrite inject_Z_succ. lra. }
        rewrite E. reflexivity.
    + rewrite add_point_plain by assumption. unfold first_point_inv. simpl.
      rewrite Hg. simpl. split; [|discriminate].
      intros q v' rest H. inversion H; subst. rewrite (Hplain Hr). reflexivity.
  - assert (Hkeep : exists rest, zipped_graph (snd (add_point z v))
                                 = (q0, v0) :: rest).
    { destruct (add_point_graph z v) as [Heq|[p Heq]]; rewrite Heq, Hg;
        eexists; reflexivity. }
    destruct Hkeep as [rest Hrest]. unfold first_point_inv. rewrite Hrest.
    split; [|discriminate].
    intros q v' rest' H. inversion H; subst. eapply Hhead. reflexivity.
Qed.

Lemma feed_first_point_inv (vs : list pyobj) :
  forall z, first_point_inv z -> first_point_inv (feed z vs).
Proof.
  induction vs as [|v vs IH]; intros z Hz; cbn [feed]; [exact Hz|].
  apply IH, add_point_first_point_inv, Hz.
Qed.

Lemma init_first_point_inv (base zipped : Z) (z0 : GraphZipper) :
  init base zipped = Ok z0 -> first_point_inv z0.
Proof.
  intros Hinit.
  destruct (init_fields _ _ _ Hinit) as (_ & _ & Hp & Hc & Hg & _).
  unfold first_point_inv. rewrite Hg, Hp, Hc.
  split; [discriminate|]. intros _. right.
  split; [reflexivity|]. intros Hr.
  split; [reflexivity|]. eapply Qlt_trans; [|exact Hr]. reflexivity.
Qed.

(** X18: whatever the sizes and the values fed, the first point of the
    graph of a constructed instance is at position 1. *)
Theorem zipped_graph_starts_at_one (base zipped : Z) (z0 : GraphZipper)
  (vs : list pyobj) (q : Z) (v : Q) (rest : list (Z * Q)) :
  init base zipped = Ok z0 ->
  get_zipped_graph (feed z0 vs) = (q, v) :: rest ->
  q = 1.
Proof.
  intros Hinit Hg.
  destruct (feed_first_point_inv vs z0 (init_first_point_inv _ _ _ Hinit))
    as [Hhead _].
  eapply Hhead. exact Hg.
Qed.

End ZipperStart.

Lemma zipped_graph_starts_at_one_witness :
  exists z0 q,
    Zipper.init 3 2 = Ok z0 /\
    Zipper.get_zipped_graph
      (Zipper.feed z0 [Zipper.PyNum 4; Zipper.PyNum 6; Zipper.PyOther])
    = (q, snd (hd (0, 0%Q)
                  (Zipper.get_zipped_graph
                     (Zipper.feed z0 [Zipper.PyNum 4; Zipper.PyNum 6;
                                      Zipper.PyOther]))))
      :: tl (Zipper.get_zipped_graph
               (Zipper.feed z0 [Zipper.PyNum 4; Zipper.PyNum 6;
                                Zipper.PyOther])) /\
    q = 1.
Proof.
  eexists _, _. split; [reflexivity|].
  split; [reflexivity|].
  eapply (zipped_graph_starts_at_one 3 2 _
            [Zipper.PyNum 4; Zipper.PyNum 6; Zipper.PyOther]);
    reflexivity.
Defined.

Section ZipperPlain.

Import Zipper.

Lemma feed_app (vs ws : list pyobj) :
  forall z, feed z (vs ++ ws) = feed (feed z vs) ws.
Proof.
  induction vs as [|v vs IH]; intros z; cbn [feed app]; [reflexivity|].
  apply IH.
Qed.

Lemma feed_plain_coerced (vs : list pyobj) :
  forall z : GraphZipper,
    (compression_ratio z <= 1)%Q ->
    point_order z + Z.of_nat (length vs) <= base_size z ->
    zipped_graph (feed z vs)
      = zipped_graph z ++ Compress.enumerate (point_order z + 1) (map coerce vs).
Proof.
  induction vs as [|v vs IH]; intros z Hr Hp;
    cbn [map feed Compress.enumerate length] in *.
  - rewrite app_nil_r. reflexivity.
  - rewrite add_point_plain by (assumption || lia). cbn [snd].
    rewrite IH.
    + simpl. rewrite <- app_assoc. reflexivity.
    + exact Hr.
    + simpl. lia.
Qed.

(** X19: an instance built with [base_size <= zipped_size] copies its
    input: after any sequence of calls the graph holds the first
    [base_size] values fed, at positions 1, 2, ..., with every non-numeric
    value replaced by 0; values fed beyond [base_size] leave no trace. *)
Theorem uncompressed_graph_is_input (base zipped : Z) (z0 : GraphZipper)
  (vs : list pyobj) :
  init base zipped = Ok z0 -> base <= zipped ->
  get_zipped_graph (feed z0 vs)
    = Compress.enumerate 1 (map coerce (take (Z.to_nat base) vs)).
Proof.
  intros Hinit Hle.
  destruct (init_fields _ _ _ Hinit) as (Hb & _ & Hp & _ & Hg & Hr).
  assert (Hratio : (compression_ratio z0 <= 1)%Q).
  { destruct Hr as [(Hzb & Hz0 & ->)|(_ & ->)]; [|apply Qle_refl].
    assert (zipped = base) by lia. subst zipped.
    assert (H1 : (inject_Z base / inject_Z base == 1)%Q).
    { field. intros H. unfold Qeq in H. simpl in H. lia. }
    rewrite H1. apply Qle_refl. }
  unfold get_zipped_graph.
  rewrite <- (take_drop (Z.to_nat base) vs) at 1. rewrite feed_app.
  set (front := take (Z.to_nat base) vs).
  assert (Hfront : Z.of_nat (length front) <= Z.max base 0).
  { unfold front. rewrite length_take. lia. }
  assert (Hgraph : zipped_graph (feed z0 front)
                   = Compress.enumerate 1 (map coerce front)).
  { destruct (Z.le_gt_cases 0 base) as [Hb0|Hb0].
    - rewrite feed_plain_coerced; [|exact Hratio|lia].
      rewrite Hg, Hp. reflexivity.
    - assert (Hnil : front = []).
      { unfold front. replace (Z.to_nat base) with 0%nat by lia.
        reflexivity. }
      rewrite Hnil. simpl. exact Hg. }
  destruct (drop (Z.to_nat base) vs) as [|w ws] eqn:Hdrop.
  - simpl. exact Hgraph.
  - assert (Hfull : base_size (feed z0 front) <= point_order (feed z0 front)).
    { destruct (feed_frame front z0) as (Hb' & _ & _ & Hp').
      rewrite Hb', Hp', Hb, Hp.
      assert (Hlong : (Z.to_nat base < length vs)%nat).
      { destruct (Nat.lt_ge_cases (Z.to_nat base) (length vs)) as [H|H];
          [exact H|].
        rewrite drop_ge in Hdrop by exact H. discriminate. }
      unfold front. rewrite length_take. lia. }
    destruct (outcomes_full (w :: ws) _ Hfull) as (_ & Hsame & _).
    rewrite Hsame. exact Hgraph.
Qed.

Lemma uncompressed_graph_is_input_witness :
  exists z0,
    init 2 5 = Ok z0 /\ 2 <= 5 /\
    get_zipped_graph (feed z0 [PyNum 7; PyOther; PyNum 9])
      = [(1, 7%Q); (2, 0%Q)].
Proof.
  eexists. split; [reflexivity|]. split; [lia|].
  exact (uncompressed_graph_is_input 2 5 _ [PyNum 7; PyOther; PyNum 9]
           eq_refl ltac:(lia)).
Defined.

Lemma init_ratio_at_least_one (base zipped : Z) (z0 : GraphZipper) :
  init base zipped = Ok z0 -> 0 < zipped -> (1 <= compression_ratio z0)%Q.
Proof.
  intros Hinit Hz.
  destruct (init_fields _ _ _ Hinit) as (_ & _ & _ & _ & _ & Hr).
  destruct Hr as [(Hzb & _ & ->)|(_ & ->)]; [|apply Qle_refl].
  apply Qle_shift_div_l.
  - change 0%Q with (inject_Z 0). rewrite <- Zlt_Qlt. exact Hz.
  - rewrite Qmult_1_l, <- Zle_Qle. exact Hzb.
Qed.

Lemma add_point_pending_inv (z : GraphZipper) (v : pyobj) :
  pending_inv z -> pending_inv (snd (add_point z v)).
Proof.
  intros (Hlen & Hcomp & Hplain).
  destruct (Z.lt_ge_cases (base_size z) (point_order z + 1)) as [Hp|Hp].
  { rewrite add_point_full by exact Hp. unfold pending_inv.
    cbn [snd set_point_order ratio_value_points cached_ratios_sum
         compression_ratio].
    repeat split; assumption. }
  destruct (Qlt_le_dec 1 (compression_ratio z)) as [Hr|Hr].
  - specialize (Hcomp Hr).
    destruct (Qlt_le_dec (cached_ratios_sum z + 1) (compression_ratio z))
      as [Hacc|Hflush].
    + rewrite add_point_accumulate by assumption. unfold pending_inv.
      cbn [snd set_window set_point_order ratio_value_points
           cached_ratios_sum compression_ratio].
      rewrite length_app. cbn [length].
      rewrite Nat2Z.inj_add, inject_Z_plus.
      change (inject_Z (Z.of_nat 1)) with 1%Q.
      split; [|split; [intros _; exact Hacc|intros H; exfalso; lra]].
      revert Hlen. generalize (inject_Z (Z.of_nat (length (ratio_value_points z)))).
      intros n Hlen. lra.
    + rewrite (add_point_flush z v Hp Hr Hflush). unfold pending_inv.
      cbn [snd ratio_value_points cached_ratios_sum compression_ratio length].
      change (inject_Z (Z.of_nat 1)) with 1%Q.
      split; [lra|]. split; [intros _; lra|].
      intros H. exfalso. lra.
  - rewrite add_point_plain by assumption. unfold pending_inv.
    cbn [snd append_graph set_point_order ratio_value_points
         cached_ratios_sum compression_ratio].
    split; [exact Hlen|]. split; [exact Hcomp|exact Hplain].
Qed.

Lemma feed_pending_inv (vs : list pyobj) :
  forall z, pending_inv z -> pending_inv (feed z vs).
Proof.
  induction vs as [|v vs IH]; intros z Hz; cbn [feed]; [exact Hz|].
  apply IH, add_point_pending_inv, Hz.
Qed.

(** X20: the list of pending contributions stays short: for a positive
    [zipped_size], however many values are fed, it never holds more than
    [compression_ratio + 1] entries (it is emptied down to one entry at
    every flush). *)
Theorem pending_points_bounded (base zipped : Z) (z0 : GraphZipper)
  (vs : list pyobj) :
  init base zipped = Ok z0 -> 0 < zipped ->
  (inject_Z (Z.of_nat (length (ratio_value_points (feed z0 vs))))
   < compression_ratio z0 + 1)%Q.
Proof.
  intros Hinit Hz.
  destruct (init_fields _ _ _ Hinit) as (_ & _ & _ & Hc & _ & _).
  assert (Hpts : ratio_value_points z0 = []).
  { unfold init in Hinit. destruct (_ >=? _); [unfold py_div in Hinit;
      destruct (Qeq_bool _ _); [discriminate|]|];
      simpl in Hinit; inversion Hinit; reflexivity. }
  pose proof (init_ratio_at_least_one _ _ _ Hinit Hz) as Hr1.
  assert (Hinv0 : pending_inv z0).
  { unfold pending_inv. rewrite Hpts, Hc. simpl.
    split; [discriminate|]. split; [intros H; lra|intros _; reflexivity]. }
  destruct (feed_pending_inv vs z0 Hinv0) as (Hlen & Hcomp & Hplain).
  destruct (feed_frame vs z0) as (_ & _ & Hr & _). rewrite Hr in Hcomp, Hplain.
  destruct (Qlt_le_dec 1 (compression_ratio z0)) as [Hgt|Hle].
  - specialize (Hcomp Hgt). lra.
  - specialize (Hplain Hle). lra.
Qed.

Lemma pending_points_bounded_witness :
  exists z0,
    init 100 25 = Ok z0 /\ 0 < 25 /\
    (inject_Z (Z.of_nat (length (ratio_value_points
                                   (feed z0 (repeat (PyNum 1) 60)))))
     < compression_ratio z0 + 1)%Q.
Proof.
  eexists. split; [reflexivity|]. split; [lia|].
  exact (pending_points_bounded 100 25 _ (repeat (PyNum 1) 60)
           eq_refl ltac:(lia)).
Defined.

End ZipperPlain.
